(** * Tredgate Loan: loan lifecycle, decision rule and audit log

  A shallow embedding of the business core of the Tredgate Loan demo
  application.  The definitions come first:

  - [Double]: the numbers of JavaScript, IEEE-754 binary64, with the
    operations the payment uses;
  - [TestHelpers]: the pure helpers of e2e/helpers/testHelpers.ts
    ([calculateMonthlyPayment], [shouldAutoApprove]);
  - [JSON]: a model of the runtime's [JSON.parse] and [JSON.stringify];
  - [Runtime]: local storage, the clock and the random source, exceptions;
  - [AuditLogService]: src/services/auditLogService.ts;
  - [LoanService]: the Loan Store, written from the specification;
  - [Views] and [Samples]: the terms and the data the facts are stated
    with.

  The facts follow: the round trip of the codec ([JSONFacts]), what each
  operation does to the two stores ([StoreFacts]), and the properties of
  the specification ([TestHelpersSpec], [AuditLogSpec], [LoanSpec]).

  The payment is computed on doubles, every operation rounded to the
  nearest, ties to even.  The comparisons of the decision rule are stated
  on the rationals: comparing two finite doubles is comparing the
  rationals they denote.  A stored number is kept as the finite decimal
  its literal denotes.  A JavaScript string is modelled by the bytes of
  its UTF-8 encoding. *)

From Stdlib Require Import Ascii String QArith Qpower Qfield Lqa SpecFloat.
From Stdlib Require Import DecimalFacts DecimalPos DecimalN.
From stdpp Require Import gmap strings list.

Set Default Proof Using "Type".

(* ===================================================================== *)
(** * The numbers of JavaScript *)
(* ===================================================================== *)

(** A number is an IEEE-754 binary64 value: a signed zero, a signed
  infinity, NaN, or a finite [(-1)^s * m * 2^e] whose mantissa [m] has at
  most 53 bits.  The operations are those of the specification of floats
  of the Standard Library, which round to the nearest, ties to even. *)

Module Double.

Local Open Scope Z_scope.

Definition double : Set := spec_float.

Definition prec : Z := 53.

Definition emax : Z := 1024.

(** [x + y], [x - y], [x * y] and [x / y]. *)
Definition add : double -> double -> double := SFadd prec emax.

Definition sub : double -> double -> double := SFsub prec emax.

Definition mul : double -> double -> double := SFmul prec emax.

Definition div : double -> double -> double := SFdiv prec emax.

(** [x === y] on numbers: NaN equals nothing, the two zeros are equal. *)
Definition strict_equal : double -> double -> bool := SFeqb.

(** [x < y]. *)
Definition less_than : double -> double -> bool := SFltb.

(** The literal [0]. *)
Definition zero : double := S754_zero false.

(** The double of a whole literal: the integer itself below [2^53], the
    nearest double above. *)
Definition of_Z (z : Z) : double := binary_normalize prec emax z 0 false.

(** The double of a decimal literal whose value is the fraction [q], the
    numerator and the denominator below [2^53]: the fraction rounded
    once. *)
Definition literal (q : Q) : double :=
  div (of_Z (Qnum q)) (of_Z (Zpos (Qden q))).

(** The rational a finite double denotes; the infinities and NaN denote
    none. *)
Definition exact (x : double) : option Q :=
  match x with
  | S754_zero _ => Some 0%Q
  | S754_finite s m e =>
      Some (inject_Z (if s then Zneg m else Zpos m) * 2 ^ e)%Q
  | S754_infinity _ | S754_nan => None
  end.


(** A [Math.pow] for a whole exponent that rounds once: the power of the
    rational the base denotes, rounded to the nearest double; on a zero,
    an infinity and NaN what ECMAScript prescribes.  It is the function an
    engine approximates, and stands for the engine in the examples. *)
Definition pow_rounded (base : double) (n : Z) : double :=
  match n with
  | 0 => of_Z 1
  | Zpos p =>
      match base with
      | S754_nan => S754_nan
      | S754_zero s => S754_zero (s && Z.odd n)
      | S754_infinity s => S754_infinity (s && Z.odd n)
      | S754_finite s m e =>
          binary_round prec emax (s && Z.odd n) (m ^ p) (e * n)
      end
  | Zneg p =>
      match base with
      | S754_nan => S754_nan
      | S754_zero s => S754_infinity (s && Z.odd n)
      | S754_infinity s => S754_zero (s && Z.odd n)
      | S754_finite s m e =>
          let '(q, e', l) :=
            SFdiv_core_binary prec emax 1 0 (Zpos (m ^ p)) (e * Zpos p) in
          binary_round_aux prec emax (s && Z.odd n) q e' l
      end
  end.

End Double.

(* ===================================================================== *)
(** * e2e/helpers/testHelpers.ts *)
(* ===================================================================== *)

Module TestHelpers.
Import Double.

Local Open Scope Q_scope.

Section Engine.

(** [Math.pow(base, exponent)] for a whole exponent.  ECMAScript leaves
    the value to the engine (an approximation of the power), so it is a
    parameter of the model. *)
Variable Math_pow : double -> Z -> double.

(** [calculateMonthlyPayment(amount, termMonths, interestRate)].
    [termMonths] is the number of payments, a whole number; the source
    divides by it and raises to it as a double. *)
Definition calculateMonthlyPayment
    (amount : double) (termMonths : Z) (interestRate : double) : double :=
  if strict_equal interestRate zero then
    div amount (of_Z termMonths)
  else
    let monthlyRate := div interestRate (of_Z 12) in
    let numerator :=
      mul monthlyRate (Math_pow (add (of_Z 1) monthlyRate) termMonths) in
    let denominator :=
      sub (Math_pow (add (of_Z 1) monthlyRate) termMonths) (of_Z 1) in
    mul amount (div numerator denominator).

End Engine.

(** [shouldAutoApprove(amount, termMonths)]:
    [amount <= 100000 && termMonths <= 60]. *)
Definition shouldAutoApprove (amount termMonths : Q) : bool :=
  Qle_bool amount 100000 && Qle_bool termMonths 60.



End TestHelpers.

(* ===================================================================== *)
(** * The runtime's JSON codec *)
(* ===================================================================== *)

(** A model of [JSON.parse] and [JSON.stringify] on byte strings.  The
  parser reads the JSON grammar (ECMA-404): white space, the three
  literals, numbers with fraction and exponent, strings with their escape
  sequences, arrays and objects.  The serializer writes the compact form
  [JSON.stringify] produces, except that it writes a number as an integer
  mantissa followed, when it is not zero, by a decimal exponent.  An
  escape [\uXXXX] stands for the UTF-8 bytes of its code point; surrogate
  pairs are not combined. *)

Module JSON.

Local Open Scope string_scope.
Local Open Scope char_scope.

(** A JSON number literal denotes the finite decimal
    [mantissa * 10 ^ exponent]; every finite double is one.  The engine
    keeps the double nearest to the decimal, and reads a literal beyond
    the largest double as [Infinity], which no value here stands for. *)
Record number : Set := Number { mantissa : Z; exponent : Z }.

Definition toQ (n : number) : Q :=
  (inject_Z (mantissa n) * 10 ^ exponent n)%Q.

Definition ofZ (z : Z) : number := Number z 0.

#[local] Unset Elimination Schemes.

(** Values [JSON.parse] can return.  An object keeps its properties in
    source order; reading a property takes the last one of that name. *)
Inductive JSValue : Set :=
| JNull
| JBool (b : bool)
| JNum (n : number)
| JStr (s : string)
| JArr (elements : list JSValue)
| JObj (properties : list (string * JSValue)).
#[local] Set Elimination Schemes.

(** The double quote character, code 34. *)
Abbreviation DQUOTE :=
  (Ascii.Ascii false true false false false true false false).

(** ** Serializer *)

Fixpoint print_uint (d : Decimal.uint) (k : string) : string :=
  match d with
  | Decimal.Nil => k
  | Decimal.D0 d => String "0" (print_uint d k)
  | Decimal.D1 d => String "1" (print_uint d k)
  | Decimal.D2 d => String "2" (print_uint d k)
  | Decimal.D3 d => String "3" (print_uint d k)
  | Decimal.D4 d => String "4" (print_uint d k)
  | Decimal.D5 d => String "5" (print_uint d k)
  | Decimal.D6 d => String "6" (print_uint d k)
  | Decimal.D7 d => String "7" (print_uint d k)
  | Decimal.D8 d => String "8" (print_uint d k)
  | Decimal.D9 d => String "9" (print_uint d k)
  end.

Definition print_Z (z : Z) (k : string) : string :=
  let digits := print_uint (N.to_uint (Z.abs_N z)) k in
  if (z <? 0)%Z then String "-" digits else digits.

Definition print_number (n : number) (k : string) : string :=
  print_Z (mantissa n)
    (if (exponent n =? 0)%Z then k else String "e" (print_Z (exponent n) k)).

Definition hex_digit (n : N) : ascii :=
  if (n <? 10)%N then ascii_of_N (48 + n) else ascii_of_N (87 + n).

(** QuoteJSONString: the two-character escapes, [\u00xx] for the other
    control characters, every other character as it is. *)
Definition print_char (c : ascii) (k : string) : string :=
  if Ascii.eqb c DQUOTE then String "\" (String DQUOTE k)
  else if Ascii.eqb c "\" then String "\" (String "\" k)
  else if Ascii.eqb c "008" then String "\" (String "b" k)
  else if Ascii.eqb c "012" then String "\" (String "f" k)
  else if Ascii.eqb c "010" then String "\" (String "n" k)
  else if Ascii.eqb c "013" then String "\" (String "r" k)
  else if Ascii.eqb c "009" then String "\" (String "t" k)
  else if (N_of_ascii c <? 32)%N then
    String "\" (String "u" (String "0" (String "0"
      (String (hex_digit (N_of_ascii c / 16))
        (String (hex_digit (N_of_ascii c mod 16)) k)))))
  else String c k.

Fixpoint print_chars (s : string) (k : string) : string :=
  match s with
  | EmptyString => String DQUOTE k
  | String c s' => print_char c (print_chars s' k)
  end.

Definition print_string (s : string) (k : string) : string :=
  String DQUOTE (print_chars s k).

Definition print_elements (print : JSValue -> string -> string) :=
  fix go (vs : list JSValue) (k : string) : string :=
    match vs with
    | [] => String "]" k
    | v :: vs' => String "," (print v (go vs' k))
    end.

Definition print_members (print : JSValue -> string -> string) :=
  fix go (ps : list (string * JSValue)) (k : string) : string :=
    match ps with
    | [] => String "}" k
    | (key, v) :: ps' =>
        String "," (print_string key (String ":" (print v (go ps' k))))
    end.

(** [print v k] is the text of [v] followed by [k]. *)
Fixpoint print (v : JSValue) (k : string) : string :=
  match v with
  | JNull => "null" ++ k
  | JBool true => "true" ++ k
  | JBool false => "false" ++ k
  | JNum n => print_number n k
  | JStr s => print_string s k
  | JArr [] => String "[" (String "]" k)
  | JArr (v :: vs) => String "[" (print v (print_elements print vs k))
  | JObj [] => String "{" (String "}" k)
  | JObj ((key, v) :: ps) =>
      String "{" (print_string key
        (String ":" (print v (print_members print ps k))))
  end.

Definition JSON_stringify (v : JSValue) : string := print v EmptyString.

(** ** Parser *)

Definition is_ws (c : ascii) : bool :=
  Ascii.eqb c " " || Ascii.eqb c "009" || Ascii.eqb c "010"
  || Ascii.eqb c "013".

Fixpoint skip_ws (s : string) : string :=
  match s with
  | String c s' => if is_ws c then skip_ws s' else s
  | EmptyString => s
  end.

Fixpoint strip_prefix (p s : string) : option string :=
  match p, s with
  | EmptyString, _ => Some s
  | String a p', String b s' =>
      if Ascii.eqb a b then strip_prefix p' s' else None
  | String _ _, EmptyString => None
  end.

Definition digit_of (c : ascii) : option (Decimal.uint -> Decimal.uint) :=
  if Ascii.eqb c "0" then Some Decimal.D0
  else if Ascii.eqb c "1" then Some Decimal.D1
  else if Ascii.eqb c "2" then Some Decimal.D2
  else if Ascii.eqb c "3" then Some Decimal.D3
  else if Ascii.eqb c "4" then Some Decimal.D4
  else if Ascii.eqb c "5" then Some Decimal.D5
  else if Ascii.eqb c "6" then Some Decimal.D6
  else if Ascii.eqb c "7" then Some Decimal.D7
  else if Ascii.eqb c "8" then Some Decimal.D8
  else if Ascii.eqb c "9" then Some Decimal.D9
  else None.

(** The longest run of digits at the head of [s], and what follows it. *)
Fixpoint parse_uint (s : string) : Decimal.uint * string :=
  match s with
  | EmptyString => (Decimal.Nil, s)
  | String c s' =>
      match digit_of c with
      | Some D => let '(d, k) := parse_uint s' in (D d, k)
      | None => (Decimal.Nil, s)
      end
  end.

(** [int = 0 | digit1-9 digits]: at least one digit, no leading zero. *)
Definition valid_int (d : Decimal.uint) : bool :=
  match d with
  | Decimal.Nil => false
  | Decimal.D0 Decimal.Nil => true
  | Decimal.D0 _ => false
  | _ => true
  end.

Definition nonempty (d : Decimal.uint) : bool :=
  match d with Decimal.Nil => false | _ => true end.

Definition parse_sign (s : string) : bool * string :=
  match s with
  | String c s' => if Ascii.eqb c "-" then (true, s') else (false, s)
  | EmptyString => (false, s)
  end.

Definition parse_exp_sign (s : string) : bool * string :=
  match s with
  | String c s' =>
      if Ascii.eqb c "-" then (true, s')
      else if Ascii.eqb c "+" then (false, s')
      else (false, s)
  | EmptyString => (false, s)
  end.

Definition signed (neg : bool) (d : Decimal.uint) : Z :=
  let z := Z.of_N (N.of_uint d) in if neg then (- z)%Z else z.

(** [frac = . digits]; absent is the empty run of digits. *)
Definition parse_frac (s : string) : option (Decimal.uint * string) :=
  match s with
  | String c s' =>
      if Ascii.eqb c "." then
        let '(f, k) := parse_uint s' in
        if nonempty f then Some (f, k) else None
      else Some (Decimal.Nil, s)
  | EmptyString => Some (Decimal.Nil, s)
  end.

(** [exp = (e | E) (+ | -)? digits]; absent is exponent zero. *)
Definition parse_exp (s : string) : option (Z * string) :=
  match s with
  | String c s' =>
      if Ascii.eqb c "e" || Ascii.eqb c "E" then
        let '(neg, s'') := parse_exp_sign s' in
        let '(x, k) := parse_uint s'' in
        if nonempty x then Some (signed neg x, k) else None
      else Some (0%Z, s)
  | EmptyString => Some (0%Z, s)
  end.

Definition parse_number (s : string) : option (number * string) :=
  let '(neg, s1) := parse_sign s in
  let '(int, s2) := parse_uint s1 in
  if valid_int int then
    '(frac, s3) ← parse_frac s2;
    '(e, s4) ← parse_exp s3;
    Some (Number (signed neg (Decimal.app int frac))
                 (e - Z.of_nat (Decimal.nb_digits frac)), s4)
  else None.

Definition hex_val (c : ascii) : option N :=
  let n := N_of_ascii c in
  if (48 <=? n)%N && (n <=? 57)%N then Some (n - 48)%N
  else if (97 <=? n)%N && (n <=? 102)%N then Some (n - 87)%N
  else if (65 <=? n)%N && (n <=? 70)%N then Some (n - 55)%N
  else None.

(** The UTF-8 bytes of a code point of the basic plane, before [k]. *)
Definition utf8 (cp : N) (k : string) : string :=
  if (cp <? 128)%N then String (ascii_of_N cp) k
  else if (cp <? 2048)%N then
    String (ascii_of_N (192 + cp / 64))
      (String (ascii_of_N (128 + cp mod 64)) k)
  else
    String (ascii_of_N (224 + cp / 4096))
      (String (ascii_of_N (128 + (cp / 64) mod 64))
        (String (ascii_of_N (128 + cp mod 64)) k)).

(** What a two-character escape [\c] stands for. *)
Definition unescape (c : ascii) : option ascii :=
  if Ascii.eqb c DQUOTE then Some DQUOTE
  else if Ascii.eqb c "\" then Some "\"
  else if Ascii.eqb c "/" then Some "/"
  else if Ascii.eqb c "b" then Some "008"
  else if Ascii.eqb c "f" then Some "012"
  else if Ascii.eqb c "n" then Some "010"
  else if Ascii.eqb c "r" then Some "013"
  else if Ascii.eqb c "t" then Some "009"
  else None.

(** The characters of a string literal after its opening quote, up to
    and including the closing quote. *)
Fixpoint parse_chars (s : string) : option (string * string) :=
  match s with
  | EmptyString => None
  | String c s' =>
      if Ascii.eqb c DQUOTE then Some (EmptyString, s')
      else if Ascii.eqb c "\" then
        match s' with
        | String e s'' =>
            if Ascii.eqb e "u" then
              match s'' with
              | String h1 (String h2 (String h3 (String h4 s3))) =>
                  a ← hex_val h1; b ← hex_val h2;
                  c ← hex_val h3; d ← hex_val h4;
                  '(str, k) ← parse_chars s3;
                  Some (utf8 (((a * 16 + b) * 16 + c) * 16 + d) str, k)
              | _ => None
              end
            else
              u ← unescape e;
              '(str, k) ← parse_chars s'';
              Some (String u str, k)
        | EmptyString => None
        end
      else if (N_of_ascii c <? 32)%N then None
      else '(str, k) ← parse_chars s'; Some (String c str, k)
  end.

Fixpoint parse_value (fuel : nat) (s : string)
    : option (JSValue * string) :=
  match fuel with
  | O => None
  | S fuel =>
      match skip_ws s with
      | EmptyString => None
      | String c r as s' =>
          if Ascii.eqb c "n" then
            k ← strip_prefix "ull" r; Some (JNull, k)
          else if Ascii.eqb c "t" then
            k ← strip_prefix "rue" r; Some (JBool true, k)
          else if Ascii.eqb c "f" then
            k ← strip_prefix "alse" r; Some (JBool false, k)
          else if Ascii.eqb c DQUOTE then
            '(str, k) ← parse_chars r; Some (JStr str, k)
          else if Ascii.eqb c "[" then
            match strip_prefix "]"%string (skip_ws r) with
            | Some k => Some (JArr [], k)
            | None => '(vs, k) ← parse_elements fuel r; Some (JArr vs, k)
            end
          else if Ascii.eqb c "{" then
            match strip_prefix "}"%string (skip_ws r) with
            | Some k => Some (JObj [], k)
            | None => '(ps, k) ← parse_members fuel r; Some (JObj ps, k)
            end
          else
            '(n, k) ← parse_number s'; Some (JNum n, k)
      end
  end
with parse_elements (fuel : nat) (s : string)
    : option (list JSValue * string) :=
  match fuel with
  | O => None
  | S fuel =>
      '(v, r) ← parse_value fuel s;
      match skip_ws r with
      | String c r' =>
          if Ascii.eqb c "," then
            '(vs, k) ← parse_elements fuel r'; Some (v :: vs, k)
          else if Ascii.eqb c "]" then Some ([v], r')
          else None
      | EmptyString => None
      end
  end
with parse_members (fuel : nat) (s : string)
    : option (list (string * JSValue) * string) :=
  match fuel with
  | O => None
  | S fuel =>
      r0 ← strip_prefix (String DQUOTE EmptyString) (skip_ws s);
      '(key, r1) ← parse_chars r0;
      r2 ← strip_prefix ":"%string (skip_ws r1);
      '(v, r3) ← parse_value fuel r2;
      match skip_ws r3 with
      | String c r4 =>
          if Ascii.eqb c "," then
            '(ps, k) ← parse_members fuel r4; Some ((key, v) :: ps, k)
          else if Ascii.eqb c "}" then Some ([(key, v)], r4)
          else None
      | EmptyString => None
      end
  end.

(** [JSON.parse(text)]: [None] stands for the [SyntaxError] it throws. *)
Definition JSON_parse (text : string) : option JSValue :=
  '(v, k) ← parse_value (S (String.length text)) text;
  match skip_ws k with
  | EmptyString => Some v
  | String _ _ => None
  end.

(** ** Reading properties *)

(** The own property [name] of a parsed object: the last of that name
    in the text is the one the object keeps. *)
Fixpoint lookup_property (name : string) (ps : list (string * JSValue))
    : option JSValue :=
  match ps with
  | [] => None
  | (key, v) :: ps' =>
      match lookup_property name ps' with
      | Some v' => Some v'
      | None => if String.eqb key name then Some v else None
      end
  end.

(** ** Notions the round trip is stated with *)

Section JSValue_induction.
Variable P : JSValue -> Prop.
Hypothesis Hnull : P JNull.
Hypothesis Hbool : forall b, P (JBool b).
Hypothesis Hnum : forall n, P (JNum n).
Hypothesis Hstr : forall s, P (JStr s).
Hypothesis Harr : forall vs, Forall P vs -> P (JArr vs).
Hypothesis Hobj : forall ps, Forall (fun p => P p.2) ps -> P (JObj ps).

(** Structural induction on values, through the lists of an array and of
    an object. *)
Fixpoint JSValue_ind (v : JSValue) : P v :=
  match v with
  | JNull => Hnull
  | JBool b => Hbool b
  | JNum n => Hnum n
  | JStr s => Hstr s
  | JArr vs =>
      Harr vs
        ((fix all (vs : list JSValue) : Forall P vs :=
            match vs with
            | [] => List.Forall_nil P
            | v :: vs' => @List.Forall_cons _ P v vs' (JSValue_ind v) (all vs')
            end) vs)
  | JObj ps =>
      Hobj ps
        ((fix all (ps : list (string * JSValue))
              : Forall (fun p => P p.2) ps :=
            match ps with
            | [] => List.Forall_nil _
            | p :: ps' =>
                @List.Forall_cons _ (fun p => P p.2) p ps'
                  (JSValue_ind p.2) (all ps')
            end) ps)
  end.
End JSValue_induction.

(** The fuel a value needs: one unit for each value and one for each
    element or member read in a row. *)
Definition size_elements (size : JSValue -> nat) (vs : list JSValue) : nat :=
  foldr (fun v n => S (size v + n)) 0 vs.

Definition size_members (size : JSValue -> nat)
    (ps : list (string * JSValue)) : nat :=
  foldr (fun p n => S (size p.2 + n)) 0 ps.

Fixpoint size (v : JSValue) : nat :=
  match v with
  | JArr vs => S (size_elements size vs)
  | JObj ps => S (size_members size ps)
  | _ => 1
  end.

(** [k] does not continue a run of digits. *)
Definition no_digit (k : string) : Prop :=
  match k with
  | EmptyString => True
  | String c _ => digit_of c = None
  end.

(** [k] is what can follow a value inside a JSON text: nothing, or one
    of [,], []] and [}]. *)
Definition terminated (k : string) : Prop :=
  match k with
  | EmptyString => True
  | String c _ => c = "," \/ c = "]" \/ c = "}"
  end.

(** The first character of a number: a minus sign or a digit. *)
Definition num_start (c : ascii) : bool :=
  Ascii.eqb c "-" || bool_decide (is_Some (digit_of c)).

(** What the round trip states of one value. *)
Definition reads_back (v : JSValue) : Prop :=
  forall fuel k,
    size v <= fuel -> terminated k ->
    parse_value fuel (print v k) = Some (v, k).

(** What the length bound states of one value. *)
Definition long_enough (v : JSValue) : Prop :=
  forall k, size v + String.length k <= String.length (print v k).

End JSON.

(* ===================================================================== *)
(** * The runtime: local storage, clock, random source, exceptions *)
(* ===================================================================== *)

Module Runtime.
Import JSON.

Local Open Scope string_scope.

(** What a call can throw. *)
Inductive JSError : Set :=
| SyntaxError
| TypeError
| Error (message : string).

Inductive result (A : Type) : Type :=
| Ok (value : A)
| Throw (error : JSError).
Arguments Ok {A} value.
Arguments Throw {A} error.

(** What the environment answers at its [n]-th reading: the clock in
    milliseconds ([Date.now()]), the text of a random number in base 36
    ([Math.random().toString(36)]) and the clock as an ISO-8601 timestamp
    ([new Date().toISOString()]). *)
Record Env : Type := {
  Date_now : nat -> N;
  Math_random_toString36 : nat -> string;
  Date_toISOString : nat -> string
}.

(** The state a call runs in: the key-value store of the browser and the
    number of readings taken from the environment so far. *)
Record World : Type := {
  localStorage : gmap string string;
  time : nat
}.

(** A computation reads and writes the world and returns or throws. *)
Definition M (A : Type) : Type := World -> result A * World.

Definition ret {A} (a : A) : M A := fun w => (Ok a, w).

Definition throw {A} (e : JSError) : M A := fun w => (Throw e, w).

Definition bind {A B} (m : M A) (f : A -> M B) : M B :=
  fun w =>
    match m w with
    | (Ok a, w') => f a w'
    | (Throw e, w') => (Throw e, w')
    end.

(** [try { body } catch { handler }]: what [body] wrote before it threw
    stays written. *)
Definition try_catch {A} (body : M A) (handler : M A) : M A :=
  fun w =>
    match body w with
    | (Ok a, w') => (Ok a, w')
    | (Throw _, w') => handler w'
    end.

Declare Scope js_scope.
Delimit Scope js_scope with js.
Notation "x <- m ;; k" := (bind m (fun x => k))
  (at level 100, m at next level, right associativity) : js_scope.
Notation "m ;; k" := (bind m (fun _ => k))
  (at level 100, right associativity) : js_scope.

(** [localStorage.getItem(key)]: the value, or [null]. *)
Definition getItem (key : string) : M (option string) :=
  fun w => (Ok (localStorage w !! key), w).

(** [localStorage.setItem(key, value)]. *)
Definition setItem (key value : string) : M unit :=
  fun w =>
    (Ok tt, {| localStorage := <[key := value]> (localStorage w);
               time := time w |}).

(** [localStorage.removeItem(key)]. *)
Definition removeItem (key : string) : M unit :=
  fun w =>
    (Ok tt, {| localStorage := delete key (localStorage w);
               time := time w |}).

(** The test [!stored] on a string or [null]: [null] and the empty string
    are falsy ([None]); any other string is truthy and is handed on. *)
Definition truthy (stored : option string) : option string :=
  match stored with
  | None => None
  | Some EmptyString => None
  | Some (String c s) => Some (String c s)
  end.

(** [JSON.parse(text)] as a call: it throws a [SyntaxError]. *)
Definition JSON_parse_call (text : string) : M JSValue :=
  match JSON_parse text with
  | Some v => ret v
  | None => throw SyntaxError
  end.

Definition digit36 (n : N) : ascii :=
  if (n <? 10)%N then ascii_of_N (48 + n) else ascii_of_N (87 + n).

Fixpoint toString36_digits (fuel : nat) (n : N) (k : string) : string :=
  match fuel with
  | O => k
  | S fuel =>
      let k' := String (digit36 (n mod 36)) k in
      if (n <? 36)%N then k' else toString36_digits fuel (n / 36) k'
  end.

(** [n.toString(36)] for a natural number: a number has no more digits
    in base 36 than bits. *)
Definition toString36 (n : N) : string :=
  toString36_digits (S (N.to_nat (N.log2 n))) n EmptyString.

(** The id the environment's reading [t] gives:
    [Date.now().toString(36) + Math.random().toString(36).substring(2, 9)]. *)
Definition id_at (env : Env) (t : nat) : string :=
  toString36 (Date_now env t)
  ++ substring 2 7 (Math_random_toString36 env t).

(** [generateId()]: takes one reading. *)
Definition generateId (env : Env) : M string :=
  fun w =>
    (Ok (id_at env (time w)),
     {| localStorage := localStorage w; time := S (time w) |}).

(** [new Date().toISOString()]: takes one reading. *)
Definition now_ISO (env : Env) : M string :=
  fun w =>
    (Ok (Date_toISOString env (time w)),
     {| localStorage := localStorage w; time := S (time w) |}).

(** [array.push(item)]; a [TypeError] when the receiver is not an array
    ([null] has no properties, the other values no [push] to call). *)
Definition Array_push (array item : JSValue) : M JSValue :=
  match array with
  | JArr vs => ret (JArr (vs ++ [item]))
  | _ => throw TypeError
  end.

(** [value.name] for a name no prototype defines: the own property of an
    object, [undefined] ([None]) on the other values, a [TypeError] on
    [null]. *)
Definition get_property (value : JSValue) (name : string)
    : result (option JSValue) :=
  match value with
  | JNull => Throw TypeError
  | JObj ps => Ok (lookup_property name ps)
  | _ => Ok None
  end.

(** [value === text] for a string [text]. *)
Definition strict_equal_string (value : option JSValue) (text : string)
    : bool :=
  match value with
  | Some (JStr s) => String.eqb s text
  | _ => false
  end.

(** The elements a callback keeps, in order; the first throw ends it. *)
Fixpoint filter_elements (keep : JSValue -> result bool)
    (vs : list JSValue) : result (list JSValue) :=
  match vs with
  | [] => Ok []
  | v :: vs' =>
      match keep v with
      | Throw e => Throw e
      | Ok b =>
          match filter_elements keep vs' with
          | Throw e => Throw e
          | Ok kept => Ok (if b then v :: kept else kept)
          end
      end
  end.

(** [array.filter(keep)]; a [TypeError] when the receiver is not an
    array. *)
Definition Array_filter (keep : JSValue -> result bool) (array : JSValue)
    : M JSValue :=
  match array with
  | JArr vs =>
      match filter_elements keep vs with
      | Ok kept => ret (JArr kept)
      | Throw e => throw e
      end
  | _ => throw TypeError
  end.

(** The white space and the line terminators [trim] removes, by the
    bytes of their UTF-8 encoding.  One byte: tab, line feed, vertical
    tab, form feed, carriage return and space. *)
Definition is_space (c : ascii) : bool :=
  let n := N_of_ascii c in ((9 <=? n)%N && (n <=? 13)%N) || (n =? 32)%N.

(** Two bytes: the no-break space U+00A0. *)
Definition is_space2 (c1 c2 : ascii) : bool :=
  (N_of_ascii c1 =? 194)%N && (N_of_ascii c2 =? 160)%N.

(** Three bytes: U+1680, U+2000 to U+200A, the line and paragraph
    separators U+2028 and U+2029, U+202F, U+205F, U+3000 and the byte
    order mark U+FEFF. *)
Definition is_space3 (c1 c2 c3 : ascii) : bool :=
  let n1 := N_of_ascii c1 in
  let n2 := N_of_ascii c2 in
  let n3 := N_of_ascii c3 in
  ((n1 =? 225)%N && (n2 =? 154)%N && (n3 =? 128)%N)
  || ((n1 =? 226)%N && (n2 =? 128)%N
      && (((128 <=? n3)%N && (n3 <=? 138)%N)
          || (n3 =? 168)%N || (n3 =? 169)%N || (n3 =? 175)%N))
  || ((n1 =? 226)%N && (n2 =? 129)%N && (n3 =? 159)%N)
  || ((n1 =? 227)%N && (n2 =? 128)%N && (n3 =? 128)%N)
  || ((n1 =? 239)%N && (n2 =? 187)%N && (n3 =? 191)%N).

(** [text.trimStart()]. *)
Fixpoint trim_start (s : string) : string :=
  match s with
  | EmptyString => s
  | String c1 s1 =>
      if is_space c1 then trim_start s1
      else
        match s1 with
        | EmptyString => s
        | String c2 s2 =>
            if is_space2 c1 c2 then trim_start s2
            else
              match s2 with
              | EmptyString => s
              | String c3 s3 =>
                  if is_space3 c1 c2 c3 then trim_start s3 else s
              end
        end
  end.

(** [text.trimEnd()]: the end starts where all that follows is white
    space. *)
Fixpoint trim_end (s : string) : string :=
  match s with
  | EmptyString => EmptyString
  | String c s' =>
      match trim_start s with
      | EmptyString => EmptyString
      | String _ _ => String c (trim_end s')
      end
  end.

(** [text.trim()]. *)
Definition trim (s : string) : string := trim_end (trim_start s).

End Runtime.

(* ===================================================================== *)
(** * src/types/auditLog.ts and src/services/auditLogService.ts *)
(* ===================================================================== *)

Module AuditLogService.
Import JSON Runtime.

Local Open Scope string_scope.
Local Open Scope js_scope.

(** Modelled from the spec: [LoanStatus] of src/types/loan.ts, which is
    not among the sources; the three values of section 3. *)
Inductive LoanStatus : Set := pending | approved | rejected.

Inductive AuditAction : Set := loan_created | status_changed | auto_decided.

(** An optional field is [None] where the object has [undefined]. *)
Record AuditLogEntry : Set := {
  id : string;
  timestamp : string;
  action : AuditAction;
  loanId : string;
  previousStatus : option LoanStatus;
  newStatus : option LoanStatus;
  details : option string
}.

Record CreateAuditLogInput : Set := {
  input_action : AuditAction;
  input_loanId : string;
  input_previousStatus : option LoanStatus;
  input_newStatus : option LoanStatus;
  input_details : option string
}.

Definition status_text (s : LoanStatus) : string :=
  match s with
  | pending => "pending"
  | approved => "approved"
  | rejected => "rejected"
  end.

Definition action_text (a : AuditAction) : string :=
  match a with
  | loan_created => "loan_created"
  | status_changed => "status_changed"
  | auto_decided => "auto_decided"
  end.

Definition optional (name : string) (v : option string)
    : list (string * JSValue) :=
  match v with
  | Some s => [(name, JStr s)]
  | None => []
  end.

(** An entry as [JSON.stringify] sees it: the properties in the order the
    object literal gives them, those that are [undefined] left out. *)
Definition entry_value (e : AuditLogEntry) : JSValue :=
  JObj ([("id", JStr (id e));
         ("timestamp", JStr (timestamp e));
         ("action", JStr (action_text (action e)));
         ("loanId", JStr (loanId e))]
        ++ optional "previousStatus" (status_text <$> previousStatus e)
        ++ optional "newStatus" (status_text <$> newStatus e)
        ++ optional "details" (details e)).

Definition STORAGE_KEY : string := "tredgate_audit_logs".

(** [getAuditLogs()]: what [JSON.parse] returns is returned as it is; the
    cast to [AuditLogEntry[]] checks nothing. *)
Definition getAuditLogs : M JSValue :=
  try_catch
    (stored <- getItem STORAGE_KEY ;;
     match truthy stored with
     | None => ret (JArr [])
     | Some text => JSON_parse_call text
     end)
    (ret (JArr [])).

(** [saveAuditLogs(logs)]. *)
Definition saveAuditLogs (logs : JSValue) : M unit :=
  setItem STORAGE_KEY (JSON_stringify logs).

(** [createAuditLogEntry(input)]. *)
Definition createAuditLogEntry (env : Env) (input : CreateAuditLogInput)
    : M AuditLogEntry :=
  new_id <- generateId env ;;
  new_timestamp <- now_ISO env ;;
  let newEntry :=
    {| id := new_id;
       timestamp := new_timestamp;
       action := input_action input;
       loanId := input_loanId input;
       previousStatus := input_previousStatus input;
       newStatus := input_newStatus input;
       details := input_details input |} in
  logs <- getAuditLogs ;;
  logs' <- Array_push logs (entry_value newEntry) ;;
  saveAuditLogs logs' ;;
  ret newEntry.

(** The callback of [getAuditLogsForLoan]: [log => log.loanId === loanId]. *)
Definition has_loanId (wanted : string) (log : JSValue) : result bool :=
  match get_property log "loanId" with
  | Ok v => Ok (strict_equal_string v wanted)
  | Throw e => Throw e
  end.

(** [getAuditLogsForLoan(loanId)]. *)
Definition getAuditLogsForLoan (wanted : string) : M JSValue :=
  logs <- getAuditLogs ;;
  Array_filter (has_loanId wanted) logs.

(** [clearAuditLogs()]. *)
Definition clearAuditLogs : M unit := removeItem STORAGE_KEY.

End AuditLogService.

(* ===================================================================== *)
(** * The Loan Store *)
(* ===================================================================== *)

(** Modelled from the spec: src/types/loan.ts and
    src/services/loanService.ts are not among the sources; the Loan Store
    below follows sections 3, 4.1, 6 and 7 of the specification, and the
    texts of [details] follow tests/loanAuditIntegration.test.ts. *)

Module LoanService.
Import JSON Runtime.
Export AuditLogService.

Local Open Scope string_scope.
Local Open Scope js_scope.

(** Modelled from the spec: [LoanApplication] of src/types/loan.ts, which
    is not among the sources; the record of section 3. *)
Record LoanApplication : Set := {
  id : string;
  applicantName : string;
  amount : number;
  termMonths : number;
  interestRate : number;
  status : LoanStatus;
  createdAt : string
}.

(** Modelled from the spec: [CreateLoanInput] of src/types/loan.ts, which
    is not among the sources; the input of [create] in section 4.1, whose
    interest rate may be absent (section 7). *)
Record CreateLoanInput : Set := {
  input_applicantName : string;
  input_amount : number;
  input_termMonths : number;
  input_interestRate : option number
}.

(** The loan [l] with [status] set to [s]: [loan.status = s]. *)
Definition with_status (s : LoanStatus) (l : LoanApplication)
    : LoanApplication :=
  {| id := id l;
     applicantName := applicantName l;
     amount := amount l;
     termMonths := termMonths l;
     interestRate := interestRate l;
     status := s;
     createdAt := createdAt l |}.

(** Modelled from the spec: loanService.ts is missing; a loan as the
    JSON object of section 6, its fields in the order of section 3. *)
Definition loan_value (l : LoanApplication) : JSValue :=
  JObj [("id", JStr (id l));
        ("applicantName", JStr (applicantName l));
        ("amount", JNum (amount l));
        ("termMonths", JNum (termMonths l));
        ("interestRate", JNum (interestRate l));
        ("status", JStr (status_text (status l)));
        ("createdAt", JStr (createdAt l))].

(** Modelled from the spec: loanService.ts is missing; reading a stored
    loan back, the inverse of [loan_value] ([status_of_text],
    [string_property], [number_property], [loan_of_value],
    [loans_of_value]).  A value that is no array of loans is corrupted
    data. *)
Definition status_of_text (s : string) : option LoanStatus :=
  if String.eqb s "pending" then Some pending
  else if String.eqb s "approved" then Some approved
  else if String.eqb s "rejected" then Some rejected
  else None.

Definition string_property (name : string) (ps : list (string * JSValue))
    : option string :=
  match lookup_property name ps with
  | Some (JStr s) => Some s
  | _ => None
  end.

Definition number_property (name : string) (ps : list (string * JSValue))
    : option number :=
  match lookup_property name ps with
  | Some (JNum n) => Some n
  | _ => None
  end.

Definition loan_of_value (v : JSValue) : option LoanApplication :=
  match v with
  | JObj ps =>
      l_id ← string_property "id" ps;
      l_name ← string_property "applicantName" ps;
      l_amount ← number_property "amount" ps;
      l_term ← number_property "termMonths" ps;
      l_rate ← number_property "interestRate" ps;
      l_status ← string_property "status" ps ≫= status_of_text;
      l_created ← string_property "createdAt" ps;
      Some {| id := l_id; applicantName := l_name; amount := l_amount;
              termMonths := l_term; interestRate := l_rate;
              status := l_status; createdAt := l_created |}
  | _ => None
  end.

Definition loans_of_value (v : JSValue) : option (list LoanApplication) :=
  match v with
  | JArr vs => mapM loan_of_value vs
  | _ => None
  end.

(** Modelled from the spec: the key of the loans collection in
    section 6. *)
Definition STORAGE_KEY : string := "tredgate_loans".

(** Modelled from the spec: [getLoans] of loanService.ts, which is
    missing; [list()] of section 4.1, all loans in persistence order, the
    empty collection if the store is empty or corrupted. *)
Definition getLoans : M (list LoanApplication) :=
  try_catch
    (stored <- getItem STORAGE_KEY ;;
     match truthy stored with
     | None => ret []
     | Some text =>
         v <- JSON_parse_call text ;;
         ret (default [] (loans_of_value v))
     end)
    (ret []).

(** Modelled from the spec: loanService.ts is missing; the whole
    collection is written back (section 6). *)
Definition saveLoans (loans : list LoanApplication) : M unit :=
  setItem STORAGE_KEY (JSON_stringify (JArr (loan_value <$> loans))).

(** [n > 0] and [n >= 0] on the value of a number. *)
Definition positive (n : number) : bool :=
  negb (Qle_bool (toQ n) 0).

Definition non_negative (n : number) : bool :=
  Qle_bool 0 (toQ n).

(** Modelled from the spec: loanService.ts is missing; the field
    constraints of section 7, with the messages of the text library of the
    tests.  The first that fails is reported; a valid input gives its
    interest rate. *)
Definition validate (input : CreateLoanInput) : result number :=
  if String.eqb (trim (input_applicantName input)) EmptyString then
    Throw (Error "Applicant name is required")
  else if negb (positive (input_amount input)) then
    Throw (Error "Amount must be greater than 0")
  else if negb (positive (input_termMonths input)) then
    Throw (Error "Term months must be greater than 0")
  else
    match input_interestRate input with
    | Some rate =>
        if non_negative rate then Ok rate
        else Throw (Error "Interest rate is required and cannot be negative")
    | None =>
        Throw (Error "Interest rate is required and cannot be negative")
    end.

(** Modelled from the spec: [createLoanApplication] of loanService.ts,
    which is missing; [create(input)] of section 4.1: validate, assign
    [id] and [createdAt], set the status to pending, persist, append the
    audit entry, return the record. *)
Definition createLoanApplication (env : Env) (input : CreateLoanInput)
    : M LoanApplication :=
  match validate input with
  | Throw e => throw e
  | Ok rate =>
      new_id <- generateId env ;;
      new_createdAt <- now_ISO env ;;
      let newLoan :=
        {| id := new_id;
           applicantName := trim (input_applicantName input);
           amount := input_amount input;
           termMonths := input_termMonths input;
           interestRate := rate;
           status := pending;
           createdAt := new_createdAt |} in
      loans <- getLoans ;;
      saveLoans (loans ++ [newLoan]) ;;
      createAuditLogEntry env
        {| input_action := loan_created;
           input_loanId := id newLoan;
           input_previousStatus := None;
           input_newStatus := Some pending;
           input_details :=
             Some ("Loan application created for " ++ applicantName newLoan) |} ;;
      ret newLoan
  end.

(** Modelled from the spec: loanService.ts is missing; the loan a lookup
    by id finds, the first of that id. *)
Definition find_loan (wanted : string) (loans : list LoanApplication)
    : option LoanApplication :=
  List.find (fun l => String.eqb (id l) wanted) loans.

(** Modelled from the spec: loanService.ts is missing; the collection
    after the loan found by [find_loan] got status [s]. *)
Fixpoint set_status (wanted : string) (s : LoanStatus)
    (loans : list LoanApplication) : list LoanApplication :=
  match loans with
  | [] => []
  | l :: loans' =>
      if String.eqb (id l) wanted then with_status s l :: loans'
      else l :: set_status wanted s loans'
  end.

(** Modelled from the spec: loanService.ts is missing; the status change
    [updateStatus] and [autoDecide] share in section 4.1: record the
    previous status, set the new one, persist, then log under
    [logged_as]. *)
Definition change_status (env : Env) (logged_as : AuditAction)
    (text : string) (loans : list LoanApplication) (loan : LoanApplication)
    (new_status : LoanStatus) : M unit :=
  saveLoans (set_status (id loan) new_status loans) ;;
  createAuditLogEntry env
    {| input_action := logged_as;
       input_loanId := id loan;
       input_previousStatus := Some (status loan);
       input_newStatus := Some new_status;
       input_details := Some text |} ;;
  ret tt.

(** Modelled from the spec: [updateLoanStatus] of loanService.ts, which
    is missing; [updateStatus(loanId, newStatus)] of section 4.1: an
    absent loan is a silent no-op, and no transition is refused. *)
Definition updateLoanStatus (env : Env) (wanted : string)
    (new_status : LoanStatus) : M unit :=
  loans <- getLoans ;;
  match find_loan wanted loans with
  | None => ret tt
  | Some loan =>
      change_status env status_changed
        ("Status changed from " ++ status_text (status loan)
         ++ " to " ++ status_text new_status)
        loans loan new_status
  end.

(** Modelled from the spec: loanService.ts is missing; the outcome of
    the Decision Rule of section 4.2 on a loan. *)
Definition decide_loan (loan : LoanApplication) : LoanStatus :=
  if TestHelpers.shouldAutoApprove (toQ (amount loan))
       (toQ (termMonths loan))
  then approved else rejected.

(** Modelled from the spec: [autoDecideLoan] of loanService.ts, which is
    missing; [autoDecide(loanId)] of section 4.1: as [updateStatus] to
    the decided status, logged as [auto_decided]. *)
Definition autoDecideLoan (env : Env) (wanted : string) : M unit :=
  loans <- getLoans ;;
  match find_loan wanted loans with
  | None => ret tt
  | Some loan =>
      change_status env auto_decided
        ("Auto-decision: " ++ status_text (decide_loan loan))
        loans loan (decide_loan loan)
  end.

(** ** The store as a state machine *)

(** The operations on the two stores that the tests and the interface
    call. *)
Inductive Operation : Set :=
| Create (input : CreateLoanInput)
| UpdateStatus (wanted : string) (new_status : LoanStatus)
| AutoDecide (wanted : string)
| ClearAuditLogs.

(** The world an operation leaves, whether it returned or threw. *)
Definition run (env : Env) (op : Operation) (w : World) : World :=
  match op with
  | Create input => (createLoanApplication env input w).2
  | UpdateStatus wanted new_status =>
      (updateLoanStatus env wanted new_status w).2
  | AutoDecide wanted => (autoDecideLoan env wanted w).2
  | ClearAuditLogs => (clearAuditLogs w).2
  end.

(** The states the operations reach from an empty local storage. *)
Inductive reachable (env : Env) : World -> Prop :=
| reachable_initial w : localStorage w = ∅ -> reachable env w
| reachable_run op w : reachable env w -> reachable env (run env op w).

(** The loans [list()] returns in a world. *)
Definition loans_in (w : World) : list LoanApplication :=
  match getLoans w with
  | (Ok loans, _) => loans
  | (Throw _, _) => []
  end.



End LoanService.

(* ===================================================================== *)
(** * What the stores read and write *)
(* ===================================================================== *)

(** The values the two services read from a local storage, the records
    they build at a reading of the environment and the worlds they leave:
    the terms the facts below are stated with. *)

Module Views.
Import JSON Runtime LoanService.

Local Open Scope string_scope.

(** The value [getAuditLogs] returns on a local storage. *)
Definition stored_logs (st : gmap string string) : JSValue :=
  match truthy (st !! AuditLogService.STORAGE_KEY) with
  | None => JArr []
  | Some text => default (JArr []) (JSON_parse text)
  end.

(** The loans [getLoans] returns on a local storage. *)
Definition stored_loans (st : gmap string string) : list LoanApplication :=
  match truthy (st !! LoanService.STORAGE_KEY) with
  | None => []
  | Some text =>
      match JSON_parse text with
      | Some v => default [] (loans_of_value v)
      | None => []
      end
  end.

(** The entry [createAuditLogEntry] builds at reading [t]. *)
Definition new_entry (env : Env) (t : nat) (input : CreateAuditLogInput)
    : AuditLogEntry :=
  {| AuditLogService.id := id_at env t;
     timestamp := Date_toISOString env (S t);
     action := input_action input;
     loanId := input_loanId input;
     previousStatus := input_previousStatus input;
     newStatus := input_newStatus input;
     details := input_details input |}.

(** The loan [createLoanApplication] builds at reading [t]. *)
Definition new_loan (env : Env) (t : nat) (input : CreateLoanInput)
    (rate : number) : LoanApplication :=
  {| LoanService.id := id_at env t;
     applicantName := trim (input_applicantName input);
     amount := input_amount input;
     termMonths := input_termMonths input;
     interestRate := rate;
     status := pending;
     createdAt := Date_toISOString env (S t) |}.

(** What [createLoanApplication] asks the audit log to record. *)
Definition creation_log (loan : LoanApplication) : CreateAuditLogInput :=
  {| input_action := loan_created;
     input_loanId := LoanService.id loan;
     input_previousStatus := None;
     input_newStatus := Some pending;
     input_details :=
       Some ("Loan application created for " ++ applicantName loan) |}.

(** What [updateStatus] and [autoDecide] ask the audit log to record. *)
Definition change_log (logged_as : AuditAction) (text : string)
    (loan : LoanApplication) (new_status : LoanStatus)
    : CreateAuditLogInput :=
  {| input_action := logged_as;
     input_loanId := LoanService.id loan;
     input_previousStatus := Some (status loan);
     input_newStatus := Some new_status;
     input_details := Some text |}.

(** The world after the loans were written back. *)
Definition with_loans (loans : list LoanApplication) (t : nat) (w : World)
    : World :=
  {| localStorage :=
       <[LoanService.STORAGE_KEY :=
           JSON_stringify (JArr (loan_value <$> loans))]> (localStorage w);
     time := t |}.

(** The world [createAuditLogEntry] leaves on a log [vs]. *)
Definition with_entry (vs : list JSValue) (e : AuditLogEntry) (w : World)
    : World :=
  {| localStorage :=
       <[AuditLogService.STORAGE_KEY :=
           JSON_stringify (JArr (vs ++ [entry_value e]))]> (localStorage w);
     time := S (S (time w)) |}.

End Views.

(* ===================================================================== *)
(** * Sample data *)
(* ===================================================================== *)

(** The environment, inputs and worlds the examples below run on; the
    inputs are those of tests/loanAuditIntegration.test.ts. *)

Module Samples.
Import JSON Runtime LoanService.

Local Open Scope string_scope.

(** A clock that advances by a millisecond at each reading. *)
Definition demo_env : Env :=
  {| Date_now t := (1700000000000 + N.of_nat t)%N;
     Math_random_toString36 _ := "0.4fzyo82mvyr";
     Date_toISOString _ := "2024-01-01T00:00:00.000Z" |}.


Definition empty_world : World := {| localStorage := ∅; time := 0 |}.

(** A world whose audit-log key holds [text]. *)
Definition world_with_log (text : string) : World :=
  {| localStorage := {[AuditLogService.STORAGE_KEY := text]}; time := 0 |}.

Definition alice : CreateLoanInput :=
  {| input_applicantName := "Alice Smith";
     input_amount := ofZ 25000;
     input_termMonths := ofZ 12;
     input_interestRate := Some (Number 5 (-2)) |}.


(** The id of the first loan created in [demo_env]. *)
Definition first_id : string := id_at demo_env 0.

Definition world_with_alice : World := run demo_env (Create alice) empty_world.


Definition world_alice_approved : World :=
  run demo_env (UpdateStatus first_id approved) world_with_alice.

(** The loans [create] returns for [alice] and for [eve] on the empty
    world. *)
Definition alice_loan : LoanApplication :=
  {| LoanService.id := first_id;
     applicantName := "Alice Smith";
     amount := ofZ 25000;
     termMonths := ofZ 12;
     interestRate := Number 5 (-2);
     status := pending;
     createdAt := "2024-01-01T00:00:00.000Z" |}.


(** The elements of the audit log of a world, when it reads as an
    array. *)
Definition logs_of (w : World) : list JSValue :=
  match getAuditLogs w with
  | (Ok (JArr vs), _) => vs
  | _ => []
  end.

(** Three entries of two loans, as tests/auditLogService.test.ts stores
    them. *)
Definition sample_entries : list AuditLogEntry :=
  [ {| AuditLogService.id := "1"; timestamp := "2024-01-01T00:00:00.000Z";
       action := loan_created; loanId := "loan-1";
       previousStatus := None; newStatus := Some pending; details := None |};
    {| AuditLogService.id := "2"; timestamp := "2024-01-02T00:00:00.000Z";
       action := status_changed; loanId := "loan-2";
       previousStatus := Some pending; newStatus := Some approved;
       details := None |};
    {| AuditLogService.id := "3"; timestamp := "2024-01-03T00:00:00.000Z";
       action := status_changed; loanId := "loan-1";
       previousStatus := Some pending; newStatus := Some approved;
       details := None |} ].

Definition world_with_entries : World :=
  (saveAuditLogs (JArr (entry_value <$> sample_entries)) empty_world).2.

End Samples.

(* ===================================================================== *)
(** * More of the runtime *)
(* ===================================================================== *)

Module Browser.
Import JSON Runtime.

Local Open Scope string_scope.

(** [array.reverse()]; a [TypeError] when the receiver is not an array. *)
Definition Array_reverse (array : JSValue) : M JSValue :=
  match array with
  | JArr vs => ret (JArr (reverse vs))
  | _ => throw TypeError
  end.

(** [localStorage.clear()]. *)
Definition localStorage_clear : M unit :=
  fun w => (Ok tt, {| localStorage := ∅; time := time w |}).

(** The decimal digits of a natural number, as a template literal writes
    the integer [Date.now()] returns. *)
Definition Number_toString (n : N) : string :=
  print_uint (N.to_uint n) EmptyString.

(** [Date.now()]: takes one reading. *)
Definition Date_now_call (env : Env) : M N :=
  fun w =>
    (Ok (Date_now env (time w)),
     {| localStorage := localStorage w; time := S (time w) |}).

End Browser.

(* ===================================================================== *)
(** * src/components/AuditLog.vue *)
(* ===================================================================== *)

Module AuditLogComponent.
Import JSON Runtime AuditLogService Browser.

Local Open Scope string_scope.
Local Open Scope js_scope.

(** [refreshLogs()]: the value it assigns to [auditLogs.value],
    [getAuditLogs().reverse()]. *)
Definition refreshLogs : M JSValue :=
  logs <- getAuditLogs ;;
  Array_reverse logs.

(** [getActionLabel(action)]. *)
Definition getActionLabel (action : string) : string :=
  if String.eqb action "loan_created" then "Created"
  else if String.eqb action "status_changed" then "Status Changed"
  else if String.eqb action "auto_decided" then "Auto-Decided"
  else action.

(** [getActionClass(action)]. *)
Definition getActionClass (action : string) : string :=
  if String.eqb action "loan_created" then "action-created"
  else if String.eqb action "status_changed" then "action-status-changed"
  else if String.eqb action "auto_decided" then "action-auto-decided"
  else EmptyString.

End AuditLogComponent.

(* ===================================================================== *)
(** * e2e/helpers/testHelpers.ts, the helpers that touch the browser *)
(* ===================================================================== *)

Module TestHelpersBrowser.
Import JSON Runtime Browser.

Local Open Scope string_scope.
Local Open Scope js_scope.

(** [generateApplicantName(prefix)]: the default of [prefix] stands in for
    an absent argument; the clock is written in decimal. *)
Definition generateApplicantName (env : Env) (prefix : option string)
    : M string :=
  timestamp <- Date_now_call env ;;
  ret (default "Test User" prefix ++ " " ++ Number_toString timestamp).

(** [clearLocalStorage(page)]: what its callback does in the page. *)
Definition clearLocalStorage : M unit := localStorage_clear.

(** [getLocalStorage(page, key)]: what its callback returns in the page,
    [data ? JSON.parse(data) : null]; nothing catches what [JSON.parse]
    throws. *)
Definition getLocalStorage (key : string) : M JSValue :=
  data <- getItem key ;;
  match truthy data with
  | Some text => JSON_parse_call text
  | None => ret JNull
  end.

End TestHelpersBrowser.

(* ===================================================================== *)
(** * Callers of the audit log *)
(* ===================================================================== *)

Module Callers.
Import JSON Runtime AuditLogService.

Local Open Scope string_scope.
Local Open Scope js_scope.

(** One call of [createAuditLogEntry] after the other, for each input in
    turn; the entries they return. *)
Fixpoint createAuditLogEntries (env : Env)
    (inputs : list CreateAuditLogInput) : M (list AuditLogEntry) :=
  match inputs with
  | [] => ret []
  | input :: inputs' =>
      e <- createAuditLogEntry env input ;;
      es <- createAuditLogEntries env inputs' ;;
      ret (e :: es)
  end.

(** Whether the callback of [getAuditLogsForLoan] keeps a value that is
    not [null]: an object whose own [loanId] is the string wanted. *)
Definition matches_loan (wanted : string) (log : JSValue) : bool :=
  match log with
  | JObj ps => strict_equal_string (lookup_property "loanId" ps) wanted
  | _ => false
  end.

(** The input whose fields a call copies into the entry it builds. *)
Definition copies_input (e : AuditLogEntry) (input : CreateAuditLogInput)
    : Prop :=
  action e = input_action input
  /\ loanId e = input_loanId input
  /\ previousStatus e = input_previousStatus input
  /\ newStatus e = input_newStatus input
  /\ details e = input_details input.

(** A character of ASCII that is not white space. *)
Definition visible (c : ascii) : bool :=
  (N_of_ascii c <? 128)%N && negb (is_space c).

(** Whether a string holds a character of ASCII that is not white
    space. *)
Fixpoint nonblank (s : string) : bool :=
  match s with
  | EmptyString => false
  | String c s' => visible c || nonblank s'
  end.

(** A request to record that the status of loan-2 changed. *)
Definition sample_input : CreateAuditLogInput :=
  {| input_action := status_changed;
     input_loanId := "loan-2";
     input_previousStatus := Some approved;
     input_newStatus := Some rejected;
     input_details := None |}.

End Callers.

(* ===================================================================== *)
(** * Facts about the JSON codec *)
(* ===================================================================== *)

Module JSONFacts.
Import JSON.

Local Open Scope string_scope.
Local Open Scope char_scope.

(** ** Numbers *)

Lemma terminated_no_digit k : terminated k -> no_digit k.
Proof. destruct k as [|c k]; [done|]. by intros [-> | [-> | ->]]. Qed.

Lemma parse_uint_print_uint d k :
  no_digit k -> parse_uint (print_uint d k) = (d, k).
Proof.
  intros Hk. induction d as [|d IH|d IH|d IH|d IH|d IH|d IH|d IH|d IH|d IH|d IH];
    simpl; rewrite ?IH; try reflexivity.
  destruct k as [|c k]; [done|]. simpl in *. by rewrite Hk.
Qed.

Lemma valid_int_unorm d : valid_int (Decimal.unorm d) = true.
Proof. induction d; simpl; auto. Qed.

Lemma to_uint_unorm n : Decimal.unorm (N.to_uint n) = N.to_uint n.
Proof.
  rewrite <- (DecimalN.Unsigned.to_of (N.to_uint n)).
  by rewrite DecimalN.Unsigned.of_to.
Qed.

Lemma valid_int_to_uint n : valid_int (N.to_uint n) = true.
Proof. rewrite <- to_uint_unorm. apply valid_int_unorm. Qed.

Lemma valid_int_nonempty d : valid_int d = true -> nonempty d = true.
Proof. by destruct d. Qed.

Lemma parse_sign_digits d k :
  nonempty d = true -> parse_sign (print_uint d k) = (false, print_uint d k).
Proof. by destruct d. Qed.

Lemma parse_exp_sign_digits d k :
  nonempty d = true ->
  parse_exp_sign (print_uint d k) = (false, print_uint d k).
Proof. by destruct d. Qed.

Lemma signed_to_uint z : signed (z <? 0)%Z (N.to_uint (Z.abs_N z)) = z.
Proof.
  unfold signed. rewrite DecimalN.Unsigned.of_to, N2Z.inj_abs_N.
  destruct (Z.ltb_spec z 0); lia.
Qed.

Lemma parse_sign_print_Z z k :
  parse_sign (print_Z z k)
  = ((z <? 0)%Z, print_uint (N.to_uint (Z.abs_N z)) k).
Proof.
  unfold print_Z. destruct (z <? 0)%Z; [done|].
  apply parse_sign_digits, valid_int_nonempty, valid_int_to_uint.
Qed.

Lemma parse_exp_sign_print_Z z k :
  parse_exp_sign (print_Z z k)
  = ((z <? 0)%Z, print_uint (N.to_uint (Z.abs_N z)) k).
Proof.
  unfold print_Z. destruct (z <? 0)%Z; [done|].
  apply parse_exp_sign_digits, valid_int_nonempty, valid_int_to_uint.
Qed.

Lemma parse_frac_terminated k :
  terminated k -> parse_frac k = Some (Decimal.Nil, k).
Proof. destruct k as [|c k]; [done|]. by intros [-> | [-> | ->]]. Qed.

Lemma parse_exp_terminated k :
  terminated k -> parse_exp k = Some (0%Z, k).
Proof. destruct k as [|c k]; [done|]. by intros [-> | [-> | ->]]. Qed.

Lemma parse_exp_print z k :
  no_digit k -> parse_exp (String "e" (print_Z z k)) = Some (z, k).
Proof.
  intros Hk. cbn [parse_exp Ascii.eqb Bool.eqb orb].
  rewrite parse_exp_sign_print_Z, (parse_uint_print_uint _ _ Hk).
  rewrite (valid_int_nonempty _ (valid_int_to_uint _)).
  by rewrite signed_to_uint.
Qed.

Lemma parse_number_print_number n k :
  terminated k -> parse_number (print_number n k) = Some (n, k).
Proof.
  intros Hk. destruct n as [m e]. unfold parse_number, print_number; simpl.
  rewrite parse_sign_print_Z.
  destruct (Z.eqb_spec e 0) as [->|He].
  - rewrite (parse_uint_print_uint _ _ (terminated_no_digit _ Hk)).
    rewrite valid_int_to_uint, (parse_frac_terminated _ Hk); simpl.
    rewrite (parse_exp_terminated _ Hk); simpl.
    by rewrite DecimalFacts.app_nil_r, signed_to_uint.
  - rewrite parse_uint_print_uint by done.
    rewrite valid_int_to_uint. cbn [parse_frac Ascii.eqb Bool.eqb].
    cbn [mbind option_bind].
    rewrite (parse_exp_print _ _ (terminated_no_digit _ Hk)); simpl.
    rewrite DecimalFacts.app_nil_r, signed_to_uint. do 3 f_equal. lia.
Qed.

(** ** Strings *)

Lemma parse_chars_plain c rest str k :
  Ascii.eqb c DQUOTE = false -> Ascii.eqb c "\" = false ->
  (N_of_ascii c <? 32)%N = false ->
  parse_chars rest = Some (str, k) ->
  parse_chars (String c rest) = Some (String c str, k).
Proof. intros H1 H2 H3 Hrest. simpl. by rewrite H1, H2, H3, Hrest. Qed.

Lemma parse_chars_unicode h1 h2 h3 h4 a b c d rest str k :
  hex_val h1 = Some a -> hex_val h2 = Some b ->
  hex_val h3 = Some c -> hex_val h4 = Some d ->
  parse_chars rest = Some (str, k) ->
  parse_chars
    (String "\" (String "u" (String h1 (String h2 (String h3 (String h4 rest))))))
  = Some (utf8 (((a * 16 + b) * 16 + c) * 16 + d) str, k).
Proof.
  intros H1 H2 H3 H4 Hrest.
  cbn [parse_chars Ascii.eqb Bool.eqb]. by rewrite H1, H2, H3, H4, Hrest.
Qed.

(** The two hexadecimal digits written for a control character give
    back its code, and the code its character. *)
Lemma control_char_code c :
  (N_of_ascii c <? 32)%N = true ->
  hex_val (hex_digit (N_of_ascii c / 16)) = Some (N_of_ascii c / 16)%N
  /\ hex_val (hex_digit (N_of_ascii c mod 16)) = Some (N_of_ascii c mod 16)%N
  /\ forall str,
       utf8 (((0 * 16 + 0) * 16 + N_of_ascii c / 16) * 16
             + N_of_ascii c mod 16) str = String c str.
Proof.
  destruct c as [[] [] [] [] [] [] [] []]; intros H;
    first [ discriminate H | by vm_compute ].
Qed.

(** One character of a string literal is read back as it was written,
    whatever follows it. *)
Lemma parse_chars_print_char c rest str k :
  parse_chars rest = Some (str, k) ->
  parse_chars (print_char c rest) = Some (String c str, k).
Proof.
  intros Hrest. unfold print_char.
  destruct (Ascii.eqb_spec c DQUOTE) as [->|H1];
    [simpl; by rewrite Hrest|].
  destruct (Ascii.eqb_spec c "\") as [->|H2]; [simpl; by rewrite Hrest|].
  destruct (Ascii.eqb_spec c "008") as [->|_]; [simpl; by rewrite Hrest|].
  destruct (Ascii.eqb_spec c "012") as [->|_]; [simpl; by rewrite Hrest|].
  destruct (Ascii.eqb_spec c "010") as [->|_]; [simpl; by rewrite Hrest|].
  destruct (Ascii.eqb_spec c "013") as [->|_]; [simpl; by rewrite Hrest|].
  destruct (Ascii.eqb_spec c "009") as [->|_]; [simpl; by rewrite Hrest|].
  destruct (N_of_ascii c <? 32)%N eqn:H32.
  - destruct (control_char_code c H32) as (Hh & Hl & Hc).
    erewrite (parse_chars_unicode "0" "0"); [|done|done|done|done|done].
    by rewrite Hc.
  - apply parse_chars_plain; try done; by apply Ascii.eqb_neq.
Qed.

Lemma parse_chars_print_chars s k :
  parse_chars (print_chars s k) = Some (s, k).
Proof.
  induction s as [|c s IH]; [done|].
  simpl. by apply parse_chars_print_char.
Qed.

(** ** Values *)

Lemma num_start_dispatch c :
  num_start c = true ->
  is_ws c = false /\ Ascii.eqb "]" c = false /\ Ascii.eqb c "n" = false
  /\ Ascii.eqb c "t" = false /\ Ascii.eqb c "f" = false
  /\ Ascii.eqb c DQUOTE = false /\ Ascii.eqb c "[" = false
  /\ Ascii.eqb c "{" = false.
Proof.
  destruct c as [[] [] [] [] [] [] [] []]; intros H;
    first [ discriminate H | by vm_compute ].
Qed.

Lemma print_uint_starts d k :
  nonempty d = true ->
  exists c r, print_uint d k = String c r /\ num_start c = true.
Proof. destruct d; try done; intros _; by eexists _, _. Qed.

Lemma print_number_starts n k :
  exists c r, print_number n k = String c r /\ num_start c = true.
Proof.
  unfold print_number, print_Z. destruct (mantissa n <? 0)%Z.
  - by eexists _, _.
  - apply print_uint_starts, valid_int_nonempty, valid_int_to_uint.
Qed.

(** A printed value starts with a character that is neither white space
    nor a closing bracket. *)
Lemma print_starts v k :
  exists c r, print v k = String c r
              /\ is_ws c = false /\ Ascii.eqb "]" c = false.
Proof.
  destruct v as [|[]|n|s|[|v vs]|[|[key v] ps]]; try by eexists _, _.
  destruct (print_number_starts n k) as (c & r & Hp & Hc).
  exists c, r. split; [done|].
  by destruct (num_start_dispatch c Hc) as (? & ? & _).
Qed.

Lemma parse_value_print_number fuel n k :
  terminated k ->
  parse_value (S fuel) (print_number n k) = Some (JNum n, k).
Proof.
  intros Hk.
  pose proof (parse_number_print_number n k Hk) as Hn.
  destruct (print_number_starts n k) as (c & r & Hp & Hc).
  destruct (num_start_dispatch c Hc) as (Hw & _ & H1 & H2 & H3 & H4 & H5 & H6).
  rewrite Hp in *. cbn [parse_value skip_ws].
  rewrite Hw, H1, H2, H3, H4, H5, H6, Hn. done.
Qed.

Lemma parse_elements_print vs :
  Forall reads_back vs ->
  forall v fuel k,
    reads_back v -> size_elements size (v :: vs) <= fuel -> terminated k ->
    parse_elements fuel (print v (print_elements print vs k))
    = Some (v :: vs, k).
Proof.
  induction 1 as [|v' vs Hv' _ IH]; intros v fuel k Hv Hfuel Hk;
    (destruct fuel as [|fuel]; [simpl in Hfuel; lia|]);
    cbn [size_elements foldr] in Hfuel; cbn [parse_elements print_elements].
  - rewrite Hv; [|lia|by right; left]. by cbn.
  - rewrite Hv; [|lia|by left]. cbn.
    rewrite IH; [done|done| |done]. cbn [size_elements foldr]. lia.
Qed.

Lemma parse_members_print ps :
  Forall (fun p => reads_back p.2) ps ->
  forall key v fuel k,
    reads_back v -> size_members size ((key, v) :: ps) <= fuel ->
    terminated k ->
    parse_members fuel
      (print_string key (String ":" (print v (print_members print ps k))))
    = Some ((key, v) :: ps, k).
Proof.
  induction 1 as [|[key' v'] ps Hv' _ IH]; intros key v fuel k Hv Hfuel Hk;
    (destruct fuel as [|fuel]; [simpl in Hfuel; lia|]);
    cbn [size_members foldr snd] in Hfuel;
    cbn [parse_members print_members print_string skip_ws is_ws strip_prefix
         Ascii.eqb Bool.eqb orb mbind option_bind];
    rewrite parse_chars_print_chars;
    cbn [parse_members print_members print_string skip_ws is_ws strip_prefix
         Ascii.eqb Bool.eqb orb mbind option_bind].
  - rewrite Hv; [|lia|by right; right]. by cbn.
  - rewrite Hv; [|lia|by left]. cbn.
    rewrite (IH key' v'); [done|done| |done]. cbn [size_members foldr snd]. lia.
Qed.

Lemma parse_value_print v : reads_back v.
Proof.
  induction v as [|b|n|s|vs IH|ps IH] using JSValue_ind;
    intros fuel k Hfuel Hk;
    (destruct fuel as [|fuel]; [simpl in Hfuel; lia|]).
  - done.
  - by destruct b.
  - by apply parse_value_print_number.
  - cbn. by rewrite parse_chars_print_chars.
  - destruct vs as [|v vs]; [done|].
    apply Forall_cons_1 in IH as [Hv Hvs].
    cbn [print parse_value skip_ws is_ws Ascii.eqb Bool.eqb orb].
    destruct (print_starts v (print_elements print vs k))
      as (c & r & Hp & Hw & Hc).
    rewrite Hp. cbn [skip_ws strip_prefix]. rewrite Hw. cbn [strip_prefix].
    rewrite Hc, <- Hp.
    rewrite parse_elements_print; [done|done|done| |done].
    change (S (size_elements size (v :: vs)) <= S fuel) in Hfuel. lia.
  - destruct ps as [|[key v] ps]; [done|].
    apply Forall_cons_1 in IH as [Hv Hps].
    cbn [print parse_value skip_ws is_ws Ascii.eqb Bool.eqb orb
         print_string strip_prefix].
    fold (print_string key
            (String ":" (print v (print_members print ps k)))).
    rewrite parse_members_print; [done|done|done| |done].
    change (S (size_members size ((key, v) :: ps)) <= S fuel) in Hfuel. lia.
Qed.

(** ** The text is long enough to fuel its own parse *)

Lemma length_print_uint d k :
  String.length k <= String.length (print_uint d k).
Proof. induction d; simpl; lia. Qed.

Lemma length_print_digits d k :
  nonempty d = true ->
  1 + String.length k <= String.length (print_uint d k).
Proof.
  destruct d as [|d|d|d|d|d|d|d|d|d|d]; [done|..]; intros _;
    pose proof (length_print_uint d k); simpl; lia.
Qed.

Lemma length_print_Z z k :
  1 + String.length k <= String.length (print_Z z k).
Proof.
  unfold print_Z.
  pose proof (length_print_digits (N.to_uint (Z.abs_N z)) k
                (valid_int_nonempty _ (valid_int_to_uint _))).
  destruct (z <? 0)%Z; simpl; lia.
Qed.

Lemma length_print_number n k :
  1 + String.length k <= String.length (print_number n k).
Proof.
  unfold print_number. destruct (exponent n =? 0)%Z.
  - apply length_print_Z.
  - pose proof (length_print_Z (mantissa n)
                  (String "e" (print_Z (exponent n) k))).
    pose proof (length_print_Z (exponent n) k). simpl in *. lia.
Qed.

Lemma length_print_char c k :
  String.length k < String.length (print_char c k).
Proof.
  unfold print_char.
  repeat (match goal with |- context [if ?b then _ else _] => destruct b end);
    simpl; lia.
Qed.

Lemma length_print_chars s k :
  String.length k < String.length (print_chars s k).
Proof.
  induction s as [|c s IH]; simpl; [lia|].
  pose proof (length_print_char c (print_chars s k)). lia.
Qed.

Lemma length_print_elements vs k :
  Forall long_enough vs ->
  1 + size_elements size vs + String.length k
  <= String.length (print_elements print vs k).
Proof.
  induction 1 as [|v vs Hv _ IH];
    cbn [print_elements size_elements foldr String.length]; [lia|].
  specialize (Hv (print_elements print vs k)).
  unfold size_elements in IH. lia.
Qed.

Lemma length_print_members ps k :
  Forall (fun p => long_enough p.2) ps ->
  1 + size_members size ps + String.length k
  <= String.length (print_members print ps k).
Proof.
  induction 1 as [|[key v] ps Hv _ IH];
    cbn [print_members print_string size_members foldr String.length snd];
    [lia|].
  specialize (Hv (print_members print ps k)).
  pose proof (length_print_chars key
                (String ":" (print v (print_members print ps k)))).
  unfold size_members in IH. cbn [String.length snd] in *. lia.
Qed.

Lemma length_print v : long_enough v.
Proof.
  induction v as [|b|n|s|vs IH|ps IH] using JSValue_ind; intros k.
  - change (1 + String.length k <= 4 + String.length k). lia.
  - destruct b;
      [change (1 + String.length k <= 4 + String.length k)
      |change (1 + String.length k <= 5 + String.length k)]; lia.
  - apply length_print_number.
  - pose proof (length_print_chars s k).
    cbn [print print_string size String.length]. lia.
  - destruct vs as [|v vs]; [cbn [print size size_elements foldr String.length]; lia|].
    apply Forall_cons_1 in IH as [Hv Hvs].
    specialize (Hv (print_elements print vs k)).
    pose proof (length_print_elements vs k Hvs) as Hgo.
    cbn [print size size_elements foldr String.length].
    unfold size_elements in Hgo. lia.
  - destruct ps as [|[key v] ps]; [cbn [print size size_members foldr String.length]; lia|].
    apply Forall_cons_1 in IH as [Hv Hps]. cbn [snd] in Hv.
    specialize (Hv (print_members print ps k)).
    pose proof (length_print_members ps k Hps) as Hgo.
    pose proof (length_print_chars key
                  (String ":" (print v (print_members print ps k)))).
    cbn [print print_string size size_members foldr String.length snd] in *.
    unfold size_members in Hgo. lia.
Qed.

(** [JSON.parse(JSON.stringify(v))] is [v]. *)
Lemma JSON_parse_stringify v : JSON_parse (JSON_stringify v) = Some v.
Proof.
  unfold JSON_parse, JSON_stringify.
  rewrite parse_value_print; [done| |done].
  pose proof (length_print v EmptyString). lia.
Qed.

Example JSON_parse_number :
  JSON_parse "2.50" = Some (JNum (Number 250 (-2))).
Proof. reflexivity. Qed.

Example JSON_parse_nested :
  JSON_parse " [1, -3e2, [true, false, null], {}] "
  = Some (JArr [JNum (Number 1 0); JNum (Number (-3) 2);
                JArr [JBool true; JBool false; JNull]; JObj []]).
Proof. reflexivity. Qed.

Example JSON_parse_rejects :
  JSON_parse "invalid json" = None /\ JSON_parse "[1,]" = None
  /\ JSON_parse "01" = None /\ JSON_parse EmptyString = None.
Proof. repeat split; reflexivity. Qed.

(** The text of a value is not the empty string. *)
Lemma JSON_stringify_nonempty v : JSON_stringify v <> EmptyString.
Proof.
  unfold JSON_stringify.
  destruct (print_starts v EmptyString) as (c & r & -> & _). done.
Qed.

End JSONFacts.

(* ===================================================================== *)
(** * Facts about the two stores *)
(* ===================================================================== *)

Module StoreFacts.
Import JSON Runtime LoanService Views JSONFacts.

Local Open Scope string_scope.

(** ** What the stores read from a local storage *)

Lemma getAuditLogs_reads w :
  getAuditLogs w = (Ok (stored_logs (localStorage w)), w).
Proof.
  unfold getAuditLogs, stored_logs, try_catch, bind, getItem,
    JSON_parse_call, ret, throw.
  destruct (truthy _) as [text|]; [|done].
  by destruct (JSON_parse text).
Qed.

Lemma getLoans_reads w :
  getLoans w = (Ok (stored_loans (localStorage w)), w).
Proof.
  unfold getLoans, stored_loans, try_catch, bind, getItem,
    JSON_parse_call, ret, throw.
  destruct (truthy _) as [text|]; [|done].
  by destruct (JSON_parse text).
Qed.

Lemma loans_in_reads w : loans_in w = stored_loans (localStorage w).
Proof. unfold loans_in. by rewrite getLoans_reads. Qed.

Lemma truthy_stringify v :
  truthy (Some (JSON_stringify v)) = Some (JSON_stringify v).
Proof.
  pose proof (JSON_stringify_nonempty v).
  by destruct (JSON_stringify v).
Qed.

Lemma keys_differ : LoanService.STORAGE_KEY <> AuditLogService.STORAGE_KEY.
Proof. done. Qed.

Lemma stored_logs_saved st logs :
  stored_logs (<[AuditLogService.STORAGE_KEY := JSON_stringify logs]> st)
  = logs.
Proof.
  unfold stored_logs.
  by rewrite lookup_insert_eq, truthy_stringify, JSON_parse_stringify.
Qed.

Lemma stored_logs_other st text :
  stored_logs (<[LoanService.STORAGE_KEY := text]> st) = stored_logs st.
Proof.
  unfold stored_logs. by rewrite lookup_insert_ne by apply keys_differ.
Qed.

Lemma stored_loans_other st text :
  stored_loans (<[AuditLogService.STORAGE_KEY := text]> st)
  = stored_loans st.
Proof.
  unfold stored_loans. by rewrite lookup_insert_ne.
Qed.

Lemma stored_loans_cleared st :
  stored_loans (delete AuditLogService.STORAGE_KEY st) = stored_loans st.
Proof.
  unfold stored_loans. by rewrite lookup_delete_ne.
Qed.

Lemma stored_logs_cleared st :
  stored_logs (delete AuditLogService.STORAGE_KEY st) = JArr [].
Proof.
  unfold stored_logs. by rewrite lookup_delete_eq.
Qed.

Lemma status_of_text_status_text s : status_of_text (status_text s) = Some s.
Proof. by destruct s. Qed.

Lemma loan_of_value_loan_value l : loan_of_value (loan_value l) = Some l.
Proof.
  destruct l as [i n a t r s c]. unfold loan_of_value, loan_value.
  cbn -[status_of_text status_text].
  by rewrite status_of_text_status_text.
Qed.

Lemma loans_of_value_loan_values loans :
  loans_of_value (JArr (loan_value <$> loans)) = Some loans.
Proof.
  unfold loans_of_value. apply mapM_Some. induction loans; constructor;
    [apply loan_of_value_loan_value|done].
Qed.

Lemma stored_loans_saved st loans :
  stored_loans
    (<[LoanService.STORAGE_KEY := JSON_stringify (JArr (loan_value <$> loans))]> st)
  = loans.
Proof.
  unfold stored_loans.
  rewrite lookup_insert_eq, truthy_stringify, JSON_parse_stringify.
  by rewrite loans_of_value_loan_values.
Qed.

(** ** Running the operations *)

Lemma bind_Ok {A B} (m : M A) (f : A -> M B) w a w' :
  m w = (Ok a, w') -> bind m f w = f a w'.
Proof. unfold bind. by intros ->. Qed.

(** On a log that reads as an array, [createAuditLogEntry] returns the new
    entry and writes the array with the entry at its end. *)
Lemma createAuditLogEntry_runs env input w vs :
  stored_logs (localStorage w) = JArr vs ->
  createAuditLogEntry env input w
  = (Ok (new_entry env (time w) input),
     {| localStorage :=
          <[AuditLogService.STORAGE_KEY :=
              JSON_stringify
                (JArr (vs ++ [entry_value (new_entry env (time w) input)]))]>
            (localStorage w);
        time := S (S (time w)) |}).
Proof.
  intros Hlogs. unfold createAuditLogEntry.
  erewrite bind_Ok by reflexivity. erewrite bind_Ok by reflexivity.
  erewrite bind_Ok by apply getAuditLogs_reads.
  cbn [localStorage]. rewrite Hlogs. reflexivity.
Qed.

(** On a log that reads as anything else, it throws and writes nothing. *)
Lemma createAuditLogEntry_throws env input w :
  (forall vs, stored_logs (localStorage w) <> JArr vs) ->
  createAuditLogEntry env input w
  = (Throw TypeError,
     {| localStorage := localStorage w; time := S (S (time w)) |}).
Proof.
  intros Hlogs. unfold createAuditLogEntry.
  erewrite bind_Ok by reflexivity. erewrite bind_Ok by reflexivity.
  erewrite bind_Ok by apply getAuditLogs_reads.
  cbn [localStorage].
  destruct (stored_logs (localStorage w)) as [| | | |vs|] eqn:E;
    try reflexivity.
  by destruct (Hlogs vs).
Qed.

Lemma is_array_dec (v : JSValue) :
  {vs | v = JArr vs} + {forall vs, v <> JArr vs}.
Proof. destruct v; try (by right); left; by eexists. Qed.

(** In both cases the loans are left as they were and two readings are
    taken. *)
Lemma createAuditLogEntry_frame env input w :
  stored_loans (localStorage (createAuditLogEntry env input w).2)
  = stored_loans (localStorage w)
  /\ time (createAuditLogEntry env input w).2 = S (S (time w)).
Proof.
  destruct (is_array_dec (stored_logs (localStorage w))) as [[vs Hvs]|Hno].
  - rewrite (createAuditLogEntry_runs _ _ _ _ Hvs). cbn [snd localStorage time].
    by rewrite stored_loans_other.
  - by rewrite (createAuditLogEntry_throws _ _ _ Hno).
Qed.

Lemma createAuditLogEntry_keeps_array env input w :
  (exists vs, stored_logs (localStorage w) = JArr vs) ->
  exists vs,
    stored_logs (localStorage (createAuditLogEntry env input w).2) = JArr vs.
Proof.
  intros [vs Hvs]. rewrite (createAuditLogEntry_runs _ _ _ _ Hvs).
  cbn [snd localStorage]. rewrite stored_logs_saved. by eexists.
Qed.

Lemma createLoanApplication_runs env input w rate :
  validate input = Ok rate ->
  let loan := new_loan env (time w) input rate in
  let w1 := with_loans (stored_loans (localStorage w) ++ [loan])
              (S (S (time w))) w in
  createLoanApplication env input w
  = match createAuditLogEntry env (creation_log loan) w1 with
    | (Ok _, w2) => (Ok loan, w2)
    | (Throw e, w2) => (Throw e, w2)
    end.
Proof.
  intros Hvalid loan w1. unfold createLoanApplication. rewrite Hvalid.
  erewrite bind_Ok by reflexivity. erewrite bind_Ok by reflexivity.
  erewrite bind_Ok by apply getLoans_reads.
  erewrite bind_Ok by reflexivity.
  unfold bind. fold loan. cbn [localStorage time].
  change (createAuditLogEntry env _ _)
    with (createAuditLogEntry env (creation_log loan) w1).
  by destruct (createAuditLogEntry env (creation_log loan) w1) as [[]].
Qed.

Lemma createLoanApplication_refuses env input w e :
  validate input = Throw e ->
  createLoanApplication env input w = (Throw e, w).
Proof. intros Hvalid. unfold createLoanApplication. by rewrite Hvalid. Qed.

Lemma change_status_runs env logged_as text loans loan new_status w :
  change_status env logged_as text loans loan new_status w
  = match
      createAuditLogEntry env (change_log logged_as text loan new_status)
        (with_loans (set_status (LoanService.id loan) new_status loans)
           (time w) w)
    with
    | (Ok _, w2) => (Ok tt, w2)
    | (Throw e, w2) => (Throw e, w2)
    end.
Proof.
  unfold change_status. erewrite bind_Ok by reflexivity.
  unfold bind.
  change (createAuditLogEntry env _ _)
    with (createAuditLogEntry env
            (change_log logged_as text loan new_status)
            (with_loans (set_status (LoanService.id loan) new_status loans)
               (time w) w)).
  by destruct (createAuditLogEntry _ _ _) as [[]].
Qed.

(** ** The loans and the log after each operation *)

Lemma run_create_valid env input w rate :
  validate input = Ok rate ->
  let loan := new_loan env (time w) input rate in
  run env (Create input) w
  = (createAuditLogEntry env (creation_log loan)
       (with_loans (stored_loans (localStorage w) ++ [loan])
          (S (S (time w))) w)).2.
Proof.
  intros Hvalid loan. cbn [run].
  rewrite (createLoanApplication_runs _ _ _ _ Hvalid). fold loan.
  by destruct (createAuditLogEntry _ _ _) as [[]].
Qed.

Lemma run_create_invalid env input w e :
  validate input = Throw e -> run env (Create input) w = w.
Proof.
  intros Hvalid. cbn [run].
  by rewrite (createLoanApplication_refuses _ _ _ _ Hvalid).
Qed.

Lemma run_change env logged_as text loans loan new_status w :
  (change_status env logged_as text loans loan new_status w).2
  = (createAuditLogEntry env (change_log logged_as text loan new_status)
       (with_loans (set_status (LoanService.id loan) new_status loans)
          (time w) w)).2.
Proof.
  rewrite change_status_runs. by destruct (createAuditLogEntry _ _ _) as [[]].
Qed.

Lemma loans_in_with_loans loans t w :
  stored_loans (localStorage (with_loans loans t w)) = loans.
Proof. apply stored_loans_saved. Qed.

Lemma logs_in_with_loans loans t w :
  stored_logs (localStorage (with_loans loans t w))
  = stored_logs (localStorage w).
Proof. apply stored_logs_other. Qed.

(** The loans after an operation, whether it returned or threw. *)
Lemma loans_after env op w :
  loans_in (run env op w)
  = match op with
    | Create input =>
        match validate input with
        | Ok rate => (loans_in w ++ [new_loan env (time w) input rate])%list
        | Throw _ => loans_in w
        end
    | UpdateStatus wanted new_status =>
        match find_loan wanted (loans_in w) with
        | Some loan => set_status (LoanService.id loan) new_status (loans_in w)
        | None => loans_in w
        end
    | AutoDecide wanted =>
        match find_loan wanted (loans_in w) with
        | Some loan =>
            set_status (LoanService.id loan) (decide_loan loan) (loans_in w)
        | None => loans_in w
        end
    | ClearAuditLogs => loans_in w
    end.
Proof.
  rewrite !loans_in_reads. destruct op as [input|wanted s|wanted|].
  - destruct (validate input) as [rate|e] eqn:Hvalid.
    + rewrite (run_create_valid _ _ _ _ Hvalid).
      destruct (createAuditLogEntry_frame env
                  (creation_log (new_loan env (time w) input rate))
                  (with_loans
                     (stored_loans (localStorage w)
                      ++ [new_loan env (time w) input rate])
                     (S (S (time w))) w)) as [-> _].
      apply loans_in_with_loans.
    + by rewrite (run_create_invalid _ _ _ _ Hvalid).
  - cbn [run]. unfold updateLoanStatus.
    erewrite bind_Ok by apply getLoans_reads.
    destruct (find_loan wanted _) as [loan|]; [|done].
    rewrite run_change.
    destruct (createAuditLogEntry_frame env
                (change_log status_changed
                   ("Status changed from " ++ status_text (status loan)
                    ++ " to " ++ status_text s) loan s)
                (with_loans
                   (set_status (LoanService.id loan) s
                      (stored_loans (localStorage w))) (time w) w))
      as [-> _].
    apply loans_in_with_loans.
  - cbn [run]. unfold autoDecideLoan.
    erewrite bind_Ok by apply getLoans_reads.
    destruct (find_loan wanted _) as [loan|]; [|done].
    rewrite run_change.
    destruct (createAuditLogEntry_frame env
                (change_log auto_decided
                   ("Auto-decision: " ++ status_text (decide_loan loan))
                   loan (decide_loan loan))
                (with_loans
                   (set_status (LoanService.id loan) (decide_loan loan)
                      (stored_loans (localStorage w))) (time w) w))
      as [-> _].
    apply loans_in_with_loans.
  - cbn. apply stored_loans_cleared.
Qed.

(** Readings are only ever taken. *)
Lemma time_after env op w : time w <= time (run env op w).
Proof.
  destruct op as [input|wanted s|wanted|].
  - destruct (validate input) as [rate|e] eqn:Hvalid.
    + rewrite (run_create_valid _ _ _ _ Hvalid).
      destruct (createAuditLogEntry_frame env
                  (creation_log (new_loan env (time w) input rate))
                  (with_loans
                     (stored_loans (localStorage w)
                      ++ [new_loan env (time w) input rate])
                     (S (S (time w))) w)) as [_ ->].
      cbn. lia.
    + by rewrite (run_create_invalid _ _ _ _ Hvalid).
  - cbn [run]. unfold updateLoanStatus.
    erewrite bind_Ok by apply getLoans_reads.
    destruct (find_loan wanted _) as [loan|]; [|done].
    rewrite run_change.
    destruct (createAuditLogEntry_frame env
                (change_log status_changed
                   ("Status changed from " ++ status_text (status loan)
                    ++ " to " ++ status_text s) loan s)
                (with_loans
                   (set_status (LoanService.id loan) s
                      (stored_loans (localStorage w))) (time w) w))
      as [_ ->].
    cbn. lia.
  - cbn [run]. unfold autoDecideLoan.
    erewrite bind_Ok by apply getLoans_reads.
    destruct (find_loan wanted _) as [loan|]; [|done].
    rewrite run_change.
    destruct (createAuditLogEntry_frame env
                (change_log auto_decided
                   ("Auto-decision: " ++ status_text (decide_loan loan))
                   loan (decide_loan loan))
                (with_loans
                   (set_status (LoanService.id loan) (decide_loan loan)
                      (stored_loans (localStorage w))) (time w) w))
      as [_ ->].
    cbn. lia.
  - done.
Qed.

(** The log of a world that reads as an array still does after an
    operation. *)
Lemma logs_after env op w :
  (exists vs, stored_logs (localStorage w) = JArr vs) ->
  exists vs, stored_logs (localStorage (run env op w)) = JArr vs.
Proof.
  intros Hlogs. destruct op as [input|wanted s|wanted|].
  - destruct (validate input) as [rate|e] eqn:Hvalid.
    + rewrite (run_create_valid _ _ _ _ Hvalid).
      apply createAuditLogEntry_keeps_array. by rewrite logs_in_with_loans.
    + by rewrite (run_create_invalid _ _ _ _ Hvalid).
  - cbn [run]. unfold updateLoanStatus.
    erewrite bind_Ok by apply getLoans_reads.
    destruct (find_loan wanted _) as [loan|]; [|done].
    rewrite run_change.
    apply createAuditLogEntry_keeps_array. by rewrite logs_in_with_loans.
  - cbn [run]. unfold autoDecideLoan.
    erewrite bind_Ok by apply getLoans_reads.
    destruct (find_loan wanted _) as [loan|]; [|done].
    rewrite run_change.
    apply createAuditLogEntry_keeps_array. by rewrite logs_in_with_loans.
  - cbn. rewrite stored_logs_cleared. by eexists.
Qed.

(** ** Lookups by id *)





Lemma set_status_ids wanted s loans :
  LoanService.id <$> set_status wanted s loans = LoanService.id <$> loans.
Proof.
  induction loans as [|l loans IH]; [done|].
  cbn. destruct (String.eqb (LoanService.id l) wanted); cbn; by rewrite ?IH.
Qed.

End StoreFacts.

(* ===================================================================== *)
(** * The decision rule and the payment formula *)
(* ===================================================================== *)

Module TestHelpersSpec.
Import Double TestHelpers.

Local Open Scope Q_scope.

Example shouldAutoApprove_small_loan :
  shouldAutoApprove 50000 48 = true.
Proof. reflexivity. Qed.

(** 30000 over 24 months at rate zero: 1250 a month. *)
Example calculateMonthlyPayment_zero_rate :
  calculateMonthlyPayment pow_rounded (of_Z 30000) 24 zero = of_Z 1250.
Proof. reflexivity. Qed.

Lemma shouldAutoApprove_true amount termMonths :
  shouldAutoApprove amount termMonths = true
  <-> amount <= 100000 /\ termMonths <= 60.
Proof.
  unfold shouldAutoApprove. rewrite andb_true_iff, !Qle_bool_iff. reflexivity.
Qed.

(** C1: for every pair of numbers (amount, termMonths),
    [shouldAutoApprove] returns true if and only if [amount <= 100000] and
    [termMonths <= 60]; (100000, 60) is approved, (100001, 60) and
    (100000, 61) are not. *)
Theorem shouldAutoApprove_iff :
  (forall amount termMonths : Q,
     shouldAutoApprove amount termMonths = true
     <-> amount <= 100000 /\ termMonths <= 60)
  /\ shouldAutoApprove 100000 60 = true
  /\ shouldAutoApprove 100001 60 = false
  /\ shouldAutoApprove 100000 61 = false.
Proof.
  split; [apply shouldAutoApprove_true|done].
Qed.

(** ** The payment *)

(** 1000 over 52 months at the rate 12000000: the power overflows, and
    [Infinity / Infinity] is NaN. *)
Example calculateMonthlyPayment_overflow :
  calculateMonthlyPayment pow_rounded (of_Z 1000) 52 (of_Z 12000000)
  = S754_nan.
Proof. reflexivity. Qed.

(** 1200 over 12 months at the rate 1e-13: about 98.76, where the formula
    gives a little more than 100. *)
Example calculateMonthlyPayment_rounding :
  calculateMonthlyPayment pow_rounded (of_Z 1200) 12
    (literal (1 # 10000000000000))
  = S754_finite false 6949838817041435 (-46).
Proof. reflexivity. Qed.








End TestHelpersSpec.

(* ===================================================================== *)
(** * The Audit Log Store *)
(* ===================================================================== *)

Module AuditLogSpec.
Import JSON Runtime AuditLogService Views JSONFacts StoreFacts Samples.

Local Open Scope string_scope.

(** C8: when the value stored under the audit-log key is absent, empty or
    unparseable, [getAuditLogs] returns the empty collection and throws
    nothing. *)
Theorem getAuditLogs_recovers (w : World) :
  localStorage w !! STORAGE_KEY = None
  \/ localStorage w !! STORAGE_KEY = Some EmptyString
  \/ (exists text,
        localStorage w !! STORAGE_KEY = Some text
        /\ JSON_parse text = None) ->
  getAuditLogs w = (Ok (JArr []), w).
Proof.
  intros Hstored. rewrite getAuditLogs_reads. unfold stored_logs.
  destruct Hstored as [-> | [-> | (text & -> & Hparse)]]; try done.
  destruct text; [done|]. cbn [truthy]. by rewrite Hparse.
Qed.

(** The text of tests/auditLogService.test.ts that is no JSON. *)
Lemma getAuditLogs_recovers_witness :
  getAuditLogs (world_with_log "invalid json")
  = (Ok (JArr []), world_with_log "invalid json").
Proof.
  apply (getAuditLogs_recovers (world_with_log "invalid json")).
  right. right. exists "invalid json". split; vm_compute; reflexivity.
Defined.

Example getAuditLogs_absent :
  getAuditLogs empty_world = (Ok (JArr []), empty_world).
Proof. reflexivity. Qed.

Example getAuditLogs_empty_text :
  getAuditLogs (world_with_log EmptyString)
  = (Ok (JArr []), world_with_log EmptyString).
Proof. reflexivity. Qed.

(** The callback of [getAuditLogsForLoan] on an entry compares its
    [loanId]. *)
Lemma has_loanId_entry wanted e :
  has_loanId wanted (entry_value e) = Ok (String.eqb (loanId e) wanted).
Proof.
  destruct e as [i t a l [p|] [n|] [d|]]; reflexivity.
Qed.

Lemma filter_elements_entries wanted entries :
  filter_elements (has_loanId wanted) (entry_value <$> entries)
  = Ok (entry_value <$> filter (fun e => loanId e = wanted) entries).
Proof.
  induction entries as [|e entries IH]; [done|].
  rewrite filter_cons, fmap_cons. cbn [filter_elements].
  rewrite has_loanId_entry, IH.
  destruct (String.eqb_spec (loanId e) wanted); by case_decide.
Qed.

(** C9: when the log holds a sequence of audit entries, then for every
    [loanId] x, [getAuditLogsForLoan] x returns exactly the entries of
    [getAuditLogs] whose [loanId] is x, as a subsequence in the same
    order, and no entry of another [loanId]. *)
Theorem getAuditLogsForLoan_filters
    (w : World) (entries : list AuditLogEntry) (x : string) :
  getAuditLogs w = (Ok (JArr (entry_value <$> entries)), w) ->
  exists kept : list AuditLogEntry,
    getAuditLogsForLoan x w = (Ok (JArr (entry_value <$> kept)), w)
    /\ kept = filter (fun e => loanId e = x) entries
    /\ sublist kept entries
    /\ (forall e, e ∈ kept <-> e ∈ entries /\ loanId e = x).
Proof.
  intros Hlogs. eexists. split; [|split; [reflexivity|split]].
  - unfold getAuditLogsForLoan. erewrite bind_Ok by exact Hlogs.
    unfold Array_filter. by rewrite filter_elements_entries.
  - apply sublist_filter.
  - intros e. rewrite list_elem_of_filter. tauto.
Qed.

(** The three entries of tests/auditLogService.test.ts: two of them are
    those of loan-1, the first and the third. *)
Lemma getAuditLogsForLoan_filters_witness :
  exists kept : list AuditLogEntry,
    getAuditLogsForLoan "loan-1" world_with_entries
    = (Ok (JArr (entry_value <$> kept)), world_with_entries)
    /\ kept = filter (fun e => loanId e = "loan-1") sample_entries
    /\ sublist kept sample_entries
    /\ (forall e, e ∈ kept <-> e ∈ sample_entries /\ loanId e = "loan-1").
Proof.
  apply (getAuditLogsForLoan_filters world_with_entries sample_entries).
  vm_compute. reflexivity.
Defined.

Example getAuditLogsForLoan_loan_1 :
  AuditLogService.id <$> filter (fun e => loanId e = "loan-1") sample_entries
  = ["1"; "3"].
Proof. reflexivity. Qed.

(** What is stored comes from [saveAuditLogs]: the log then reads as the
    sequence that was saved. *)
Lemma getAuditLogs_saved logs w :
  getAuditLogs (saveAuditLogs logs w).2
  = (Ok logs, (saveAuditLogs logs w).2).
Proof.
  rewrite getAuditLogs_reads. cbn [saveAuditLogs setItem snd localStorage].
  by rewrite stored_logs_saved.
Qed.

(** C10: a stored text that is not empty and parses is returned as
    [JSON.parse] gave it, whatever its shape: the empty collection stands
    in only for an absent, empty or unparseable text. *)
Theorem getAuditLogs_checks_no_shape (w : World) (text : string) (v : JSValue) :
  localStorage w !! STORAGE_KEY = Some text ->
  text <> EmptyString ->
  JSON_parse text = Some v ->
  getAuditLogs w = (Ok v, w).
Proof.
  intros Hstored Hnonempty Hparse.
  rewrite getAuditLogs_reads. unfold stored_logs. rewrite Hstored.
  destruct text; [done|]. cbn [truthy]. by rewrite Hparse.
Qed.

(** The text 5 is JSON and no array: the number 5 is what comes back. *)
Lemma getAuditLogs_checks_no_shape_witness :
  getAuditLogs (world_with_log "5")
  = (Ok (JNum (ofZ 5)), world_with_log "5").
Proof.
  apply (getAuditLogs_checks_no_shape (world_with_log "5") "5");
    [vm_compute; reflexivity|discriminate|vm_compute; reflexivity].
Defined.

Example getAuditLogs_object :
  getAuditLogs (world_with_log "{}")
  = (Ok (JObj []), world_with_log "{}").
Proof. reflexivity. Qed.

(** On such a value [getAuditLogsForLoan] and [createAuditLogEntry] throw
    a [TypeError]. *)
Example getAuditLogsForLoan_on_number :
  (getAuditLogsForLoan "loan-1" (world_with_log "5")).1 = Throw TypeError.
Proof. reflexivity. Qed.

End AuditLogSpec.

(* ===================================================================== *)
(** * The Loan Store *)
(* ===================================================================== *)

Module LoanSpec.
Import JSON Runtime LoanService Views JSONFacts StoreFacts Samples.

Local Open Scope string_scope.

(** ** What holds of every reachable world *)




Lemma getAuditLogs_array w vs :
  getAuditLogs w = (Ok (JArr vs), w) <->
  stored_logs (localStorage w) = JArr vs.
Proof.
  rewrite getAuditLogs_reads. split; [by intros [= ->]|by intros ->].
Qed.

Lemma time_after_create env input w rate :
  validate input = Ok rate ->
  time (run env (Create input) w) = S (S (S (S (time w)))).
Proof.
  intros Hvalid. rewrite (run_create_valid _ _ _ _ Hvalid).
  by destruct (createAuditLogEntry_frame env
                 (creation_log (new_loan env (time w) input rate))
                 (with_loans
                    (stored_loans (localStorage w)
                     ++ [new_loan env (time w) input rate])
                    (S (S (time w))) w)) as [_ ->].
Qed.

Lemma elem_of_set_status wanted s loans l :
  l ∈ set_status wanted s loans ->
  exists l0, l0 ∈ loans /\ LoanService.id l = LoanService.id l0.
Proof.
  intros Hl.
  assert (LoanService.id l ∈ LoanService.id <$> set_status wanted s loans)
    as Hid by (apply list_elem_of_fmap; eauto).
  rewrite set_status_ids in Hid.
  apply list_elem_of_fmap in Hid as (l0 & ? & ?). eauto.
Qed.

(** In a reachable world the audit log reads as an array, and the id of
    every loan was drawn at an earlier reading. *)
Lemma reachable_invariant env w :
  reachable env w ->
  (exists vs, stored_logs (localStorage w) = JArr vs)
  /\ (forall l, l ∈ loans_in w ->
        exists t, t < time w /\ LoanService.id l = id_at env t).
Proof.
  induction 1 as [w Hempty|op w _ [IHlogs IHloans]].
  - rewrite loans_in_reads, Hempty. split; [by exists []|].
    intros l Hl. by apply elem_of_nil in Hl.
  - split; [by apply logs_after|].
    intros l. rewrite loans_after.
    pose proof (time_after env op w) as Htime.
    assert (forall l, l ∈ loans_in w ->
              exists t, t < time (run env op w)
                        /\ LoanService.id l = id_at env t) as Hold.
    { intros l0 Hl0. destruct (IHloans l0 Hl0) as (t & ? & ?).
      exists t. split; [lia|done]. }
    destruct op as [input|wanted s|wanted|]; [| | |by apply Hold].
    + destruct (validate input) as [rate|e] eqn:Hvalid; [|by apply Hold].
      rewrite elem_of_app, list_elem_of_singleton. intros [Hl| ->].
      * by apply Hold.
      * exists (time w). split; [|done].
        rewrite (time_after_create _ _ _ _ Hvalid). lia.
    + destruct (find_loan wanted (loans_in w)) as [loan|]; [|by apply Hold].
      intros Hl. apply elem_of_set_status in Hl as (l0 & Hl0 & ->).
      by apply Hold.
    + destruct (find_loan wanted (loans_in w)) as [loan|]; [|by apply Hold].
      intros Hl. apply elem_of_set_status in Hl as (l0 & Hl0 & ->).
      by apply Hold.
Qed.


(** A name of a no-break space and a space is trimmed to nothing. *)
Example validate_no_break_space :
  validate {| input_applicantName :=
                String "194"%char (String "160"%char " ");
              input_amount := ofZ 25000;
              input_termMonths := ofZ 12;
              input_interestRate := Some (ofZ 0) |}
  = Throw (Error "Applicant name is required").
Proof. reflexivity. Qed.

(** ** Creation *)



(** An id facility that never repeats an id meets the assumption of
    [createLoanApplication_valid] at every reading. *)
Lemma collision_free_is_fresh env :
  (forall t1 t2, id_at env t1 = id_at env t2 -> t1 = t2) ->
  forall w t, t < time w -> id_at env t <> id_at env (time w).
Proof. intros Hinj w t Ht Heq. apply Hinj in Heq. lia. Qed.


(** ** Status changes *)




Lemma reachable_logs_array env w :
  reachable env w -> exists logs, getAuditLogs w = (Ok (JArr logs), w).
Proof.
  intros Hreach. destruct (reachable_invariant _ _ Hreach) as [[logs H] _].
  exists logs. by apply getAuditLogs_array.
Qed.




(** ** Transitions *)




(** ** Missing loans *)

(** C7: for every [loanId] not present in the loan collection,
    [updateStatus] and [autoDecide] are no-ops: they return without an
    error and leave the world, hence the loans and the audit log, as it
    was. *)
Theorem missing_loan_is_noop
    (env : Env) (w : World) (wanted : string) (new_status : LoanStatus) :
  find_loan wanted (loans_in w) = None ->
  updateLoanStatus env wanted new_status w = (Ok tt, w)
  /\ autoDecideLoan env wanted w = (Ok tt, w).
Proof.
  intros Hfind. rewrite loans_in_reads in Hfind.
  unfold updateLoanStatus, autoDecideLoan.
  erewrite !bind_Ok by apply getLoans_reads. by rewrite Hfind.
Qed.

(** No loan of the world that holds the loan of [alice] has the id
    missing. *)
Lemma missing_loan_is_noop_witness :
  updateLoanStatus demo_env "missing" approved world_with_alice
  = (Ok tt, world_with_alice)
  /\ autoDecideLoan demo_env "missing" world_with_alice
     = (Ok tt, world_with_alice).
Proof.
  apply (missing_loan_is_noop demo_env world_with_alice "missing" approved).
  vm_compute. reflexivity.
Defined.

(** ** The end-to-end scenario of section 8 *)

(** Create the loan of Alice: one audit entry; approve it: two, and the
    one loan of the store is approved. *)
Example lifecycle_of_alice :
  length (logs_of world_with_alice) = 1
  /\ length (logs_of world_alice_approved) = 2
  /\ loans_in world_alice_approved = [with_status approved alice_loan]
  /\ (getAuditLogsForLoan first_id world_alice_approved).1
     = Ok (JArr (logs_of world_alice_approved)).
Proof. repeat split; vm_compute; reflexivity. Qed.

End LoanSpec.

(* ===================================================================== *)
(** * More of the Audit Log Store *)
(* ===================================================================== *)

Module AuditLogProps.
Import JSON Runtime AuditLogService Views Callers JSONFacts StoreFacts Samples.

Local Open Scope string_scope.

(** ** Helpers *)

Lemma logs_array w vs :
  getAuditLogs w = (Ok (JArr vs), w) ->
  stored_logs (localStorage w) = JArr vs.
Proof. rewrite getAuditLogs_reads. by intros [= ->]. Qed.

Lemma logs_value w v :
  getAuditLogs w = (Ok v, w) -> stored_logs (localStorage w) = v.
Proof. rewrite getAuditLogs_reads. by intros [= ->]. Qed.

Lemma getAuditLogs_after_entry vs e w :
  getAuditLogs (with_entry vs e w)
  = (Ok (JArr (vs ++ [entry_value e])), with_entry vs e w).
Proof.
  rewrite getAuditLogs_reads. unfold with_entry at 1. cbn [localStorage].
  by rewrite stored_logs_saved.
Qed.

Lemma createAuditLogEntry_with_entry env input w vs :
  stored_logs (localStorage w) = JArr vs ->
  createAuditLogEntry env input w
  = (Ok (new_entry env (time w) input),
     with_entry vs (new_entry env (time w) input) w).
Proof. apply createAuditLogEntry_runs. Qed.

Lemma new_entry_copies env t input : copies_input (new_entry env t input) input.
Proof. by repeat split. Qed.

(** The callback run over elements none of which is [null] keeps the
    matching ones. *)
Lemma filter_elements_values wanted vs :
  JNull ∉ vs ->
  filter_elements (has_loanId wanted) vs
  = Ok (filter (fun v => matches_loan wanted v) vs).
Proof.
  induction vs as [|v vs IH]; [done|].
  intros [Hv Hvs]%not_elem_of_cons.
  cbn [filter_elements]. rewrite (IH Hvs), filter_cons.
  destruct v as [|b|n|s|els|ps]; try done.
  cbn. by destruct (strict_equal_string _ _).
Qed.

(** A [null] among the elements makes the callback throw. *)
Lemma filter_elements_null wanted vs :
  JNull ∈ vs -> filter_elements (has_loanId wanted) vs = Throw TypeError.
Proof.
  induction vs as [|v vs IH]; [by intros ?%elem_of_nil|].
  intros [<-|Hvs]%elem_of_cons; [done|].
  cbn [filter_elements]. rewrite (IH Hvs). by destruct v.
Qed.

(** ** Saving and reading *)

(** X1: what [saveAuditLogs] writes, [getAuditLogs] reads back, whatever
    the value and whatever was stored before; no other key of the local
    storage changes. *)
Theorem saved_logs_read_back (logs : JSValue) (w : World) :
  (saveAuditLogs logs w).1 = Ok tt
  /\ getAuditLogs (saveAuditLogs logs w).2
     = (Ok logs, (saveAuditLogs logs w).2)
  /\ (forall key, key <> STORAGE_KEY ->
        localStorage (saveAuditLogs logs w).2 !! key
        = localStorage w !! key).
Proof.
  split; [done|split].
  - rewrite getAuditLogs_reads. cbn [saveAuditLogs setItem snd localStorage].
    by rewrite stored_logs_saved.
  - intros key Hkey. cbn. by rewrite lookup_insert_ne.
Qed.

(** ** Appending *)

(** X2: on a log of audit entries, [createAuditLogEntry] returns an
    entry that copies the input, with the id and the timestamp of the next
    two readings, and leaves a log that is the old one with the entry at
    its end; no other key of the local storage changes. *)
Theorem createAuditLogEntry_appends
    (env : Env) (input : CreateAuditLogInput) (w : World)
    (entries : list AuditLogEntry) :
  getAuditLogs w = (Ok (JArr (entry_value <$> entries)), w) ->
  exists (e : AuditLogEntry) (w' : World),
    createAuditLogEntry env input w = (Ok e, w')
    /\ copies_input e input
    /\ AuditLogService.id e = id_at env (time w)
    /\ timestamp e = Date_toISOString env (S (time w))
    /\ getAuditLogs w' = (Ok (JArr (entry_value <$> (entries ++ [e])%list)), w')
    /\ (forall key, key <> STORAGE_KEY ->
          localStorage w' !! key = localStorage w !! key).
Proof.
  intros Hlogs%logs_array. eexists _, _.
  split; [by apply createAuditLogEntry_with_entry|].
  split; [apply new_entry_copies|]. split; [done|]. split; [done|].
  split; [rewrite fmap_app; apply getAuditLogs_after_entry|].
  intros key Hkey. cbn. by rewrite lookup_insert_ne.
Qed.

(** An entry for loan-2 is appended to the three entries of the tests. *)
Lemma createAuditLogEntry_appends_witness :
  exists (e : AuditLogEntry) (w' : World),
    createAuditLogEntry demo_env sample_input world_with_entries = (Ok e, w')
    /\ copies_input e sample_input
    /\ AuditLogService.id e = id_at demo_env (time world_with_entries)
    /\ timestamp e
       = Date_toISOString demo_env (S (time world_with_entries))
    /\ getAuditLogs w'
       = (Ok (JArr (entry_value <$> (sample_entries ++ [e])%list)), w')
    /\ (forall key, key <> STORAGE_KEY ->
          localStorage w' !! key = localStorage world_with_entries !! key).
Proof.
  apply (createAuditLogEntry_appends demo_env sample_input
           world_with_entries sample_entries).
  vm_compute. reflexivity.
Defined.

(** X3: on a log that reads as a value that is no array (a number, an
    object, [null]), [createAuditLogEntry] throws a [TypeError] and writes
    nothing; the two readings for the id and the timestamp are taken all
    the same. *)
Theorem createAuditLogEntry_needs_array
    (env : Env) (input : CreateAuditLogInput) (w : World) (v : JSValue) :
  getAuditLogs w = (Ok v, w) ->
  (forall vs, v <> JArr vs) ->
  exists w' : World,
    createAuditLogEntry env input w = (Throw TypeError, w')
    /\ localStorage w' = localStorage w
    /\ time w' = S (S (time w)).
Proof.
  intros Hlogs%logs_value Hno. eexists.
  split; [apply createAuditLogEntry_throws; by rewrite Hlogs|done].
Qed.

(** The stored text 5 reads as the number 5: nothing can be appended. *)
Lemma createAuditLogEntry_needs_array_witness :
  exists w' : World,
    createAuditLogEntry demo_env sample_input (world_with_log "5")
    = (Throw TypeError, w')
    /\ localStorage w' = localStorage (world_with_log "5")
    /\ time w' = S (S (time (world_with_log "5"))).
Proof.
  apply (createAuditLogEntry_needs_array demo_env sample_input
           (world_with_log "5") (JNum (ofZ 5)));
    [vm_compute; reflexivity|discriminate].
Defined.

(** X4: when the stored text does not parse, [createAuditLogEntry]
    succeeds and replaces it: the log then holds the new entry alone, and
    what the text held is lost. *)
Theorem createAuditLogEntry_replaces_unreadable
    (env : Env) (input : CreateAuditLogInput) (w : World) (text : string) :
  localStorage w !! STORAGE_KEY = Some text ->
  JSON_parse text = None ->
  exists (e : AuditLogEntry) (w' : World),
    createAuditLogEntry env input w = (Ok e, w')
    /\ copies_input e input
    /\ getAuditLogs w' = (Ok (JArr [entry_value e]), w')
    /\ localStorage w' !! STORAGE_KEY
       = Some (JSON_stringify (JArr [entry_value e]))
    /\ localStorage w' !! STORAGE_KEY <> Some text.
Proof.
  intros Hstored Hparse.
  assert (stored_logs (localStorage w) = JArr []) as Hlogs.
  { unfold stored_logs. rewrite Hstored.
    destruct text; [done|]. cbn [truthy]. by rewrite Hparse. }
  eexists _, _. split; [by apply createAuditLogEntry_with_entry|].
  split; [apply new_entry_copies|].
  split; [apply (getAuditLogs_after_entry [])|].
  cbn [with_entry localStorage]. rewrite lookup_insert_eq.
  split; [done|]. intros [= <-].
  by rewrite JSON_parse_stringify in Hparse.
Qed.

(** The text of the tests that is no JSON is replaced by a log of one
    entry. *)
Lemma createAuditLogEntry_replaces_unreadable_witness :
  exists (e : AuditLogEntry) (w' : World),
    createAuditLogEntry demo_env sample_input (world_with_log "invalid json")
    = (Ok e, w')
    /\ copies_input e sample_input
    /\ getAuditLogs w' = (Ok (JArr [entry_value e]), w')
    /\ localStorage w' !! STORAGE_KEY
       = Some (JSON_stringify (JArr [entry_value e]))
    /\ localStorage w' !! STORAGE_KEY <> Some "invalid json".
Proof.
  apply (createAuditLogEntry_replaces_unreadable demo_env sample_input
           (world_with_log "invalid json") "invalid json");
    vm_compute; reflexivity.
Defined.

(** X5: one call of [createAuditLogEntry] after the other on a log of
    audit entries: every call returns, the entries copy the inputs in the
    order of the calls, the log is the old one followed by the new entries
    in that order, and two readings are taken per call. *)
Theorem createAuditLogEntries_in_order
    (env : Env) (inputs : list CreateAuditLogInput) (w : World)
    (entries : list AuditLogEntry) :
  getAuditLogs w = (Ok (JArr (entry_value <$> entries)), w) ->
  exists (es : list AuditLogEntry) (w' : World),
    createAuditLogEntries env inputs w = (Ok es, w')
    /\ Forall2 copies_input es inputs
    /\ getAuditLogs w' = (Ok (JArr (entry_value <$> (entries ++ es)%list)), w')
    /\ time w' = time w + 2 * length inputs.
Proof.
  intros Hlogs%logs_array. revert w entries Hlogs.
  induction inputs as [|input inputs IH]; intros w entries Hlogs.
  - exists [], w. split; [done|]. split; [constructor|].
    rewrite app_nil_r, getAuditLogs_reads, Hlogs. split; [done|]. cbn. lia.
  - set (e := new_entry env (time w) input).
    destruct (IH (with_entry (entry_value <$> entries) e w)
                (entries ++ [e])%list)
      as (es & w' & Hrun & Hcopies & Hread & Htime).
    { cbn [with_entry localStorage]. rewrite fmap_app.
      apply stored_logs_saved. }
    exists (e :: es), w'. split; [|split; [|split]].
    + cbn [createAuditLogEntries].
      erewrite bind_Ok by (by apply createAuditLogEntry_with_entry).
      fold e. erewrite bind_Ok by exact Hrun. done.
    + constructor; [apply new_entry_copies|done].
    + rewrite Hread. by rewrite <- app_assoc.
    + rewrite Htime. cbn [with_entry time length]. lia.
Qed.

(** Two requests are recorded after the three entries of the tests. *)
Lemma createAuditLogEntries_in_order_witness :
  exists (es : list AuditLogEntry) (w' : World),
    createAuditLogEntries demo_env [sample_input; sample_input]
      world_with_entries = (Ok es, w')
    /\ Forall2 copies_input es [sample_input; sample_input]
    /\ getAuditLogs w'
       = (Ok (JArr (entry_value <$> (sample_entries ++ es)%list)), w')
    /\ time w' = time world_with_entries + 2 * 2.
Proof.
  apply (createAuditLogEntries_in_order demo_env [sample_input; sample_input]
           world_with_entries sample_entries).
  vm_compute. reflexivity.
Defined.

(** ** Clearing *)

(** X6: after [clearAuditLogs] the key is gone and the log reads as the
    empty collection, whatever was stored; no other key of the local
    storage changes, and clearing again changes nothing. *)
Theorem clearAuditLogs_empties (w : World) :
  (clearAuditLogs w).1 = Ok tt
  /\ localStorage (clearAuditLogs w).2 !! STORAGE_KEY = None
  /\ getAuditLogs (clearAuditLogs w).2 = (Ok (JArr []), (clearAuditLogs w).2)
  /\ (forall key, key <> STORAGE_KEY ->
        localStorage (clearAuditLogs w).2 !! key = localStorage w !! key)
  /\ clearAuditLogs (clearAuditLogs w).2 = (Ok tt, (clearAuditLogs w).2).
Proof.
  split; [done|]. split; [apply lookup_delete_eq|]. split; [|split].
  - rewrite getAuditLogs_reads. cbn [clearAuditLogs removeItem snd localStorage].
    by rewrite stored_logs_cleared.
  - intros key Hkey. cbn. by rewrite lookup_delete_ne.
  - unfold clearAuditLogs, removeItem. cbn [snd localStorage time].
    by rewrite (delete_id (delete _ _)) by apply lookup_delete_eq.
Qed.

(** ** Reading by loan *)

(** X7: on a log that reads as an array with no [null] in it,
    [getAuditLogsForLoan] returns, in their order, exactly the elements
    that are objects whose [loanId] is the string asked for; elements of
    any other shape are dropped without an error. *)
Theorem getAuditLogsForLoan_keeps_matching
    (w : World) (vs : list JSValue) (x : string) :
  getAuditLogs w = (Ok (JArr vs), w) ->
  JNull ∉ vs ->
  getAuditLogsForLoan x w
  = (Ok (JArr (filter (fun v => matches_loan x v) vs)), w).
Proof.
  intros Hlogs Hnull. unfold getAuditLogsForLoan.
  erewrite bind_Ok by exact Hlogs.
  unfold Array_filter. by rewrite filter_elements_values.
Qed.

(** A log of a number, an entry of loan-1, a text and an entry without
    [loanId]: the entry of loan-1 is what is kept. *)
Lemma getAuditLogsForLoan_keeps_matching_witness :
  getAuditLogsForLoan "loan-1"
    (saveAuditLogs
       (JArr [JNum (ofZ 5); JObj [("loanId", JStr "loan-1")];
              JStr "loan-1"; JObj [("id", JStr "loan-1")]])
       empty_world).2
  = (Ok (JArr
           (filter (fun v => matches_loan "loan-1" v)
              [JNum (ofZ 5); JObj [("loanId", JStr "loan-1")];
               JStr "loan-1"; JObj [("id", JStr "loan-1")]])),
     (saveAuditLogs
        (JArr [JNum (ofZ 5); JObj [("loanId", JStr "loan-1")];
               JStr "loan-1"; JObj [("id", JStr "loan-1")]])
        empty_world).2).
Proof.
  apply getAuditLogsForLoan_keeps_matching.
  - vm_compute. reflexivity.
  - intros H. repeat (apply elem_of_cons in H as [H|H]; [discriminate H|]).
    by apply elem_of_nil in H.
Defined.

(** X8: [getAuditLogsForLoan] throws a [TypeError] when the log reads as
    a value that is no array, or as an array that holds a [null]; the
    local storage is left as it was. *)
Theorem getAuditLogsForLoan_throws (w : World) (v : JSValue) (x : string) :
  getAuditLogs w = (Ok v, w) ->
  (forall vs, v = JArr vs -> JNull ∈ vs) ->
  getAuditLogsForLoan x w = (Throw TypeError, w).
Proof.
  intros Hlogs Hbad. unfold getAuditLogsForLoan.
  erewrite bind_Ok by exact Hlogs. unfold Array_filter.
  destruct v as [| | | |vs|]; try done.
  by rewrite (filter_elements_null _ _ (Hbad vs eq_refl)).
Qed.

(** The stored text 5 reads as the number 5, which has no [filter]. *)
Lemma getAuditLogsForLoan_throws_witness :
  getAuditLogsForLoan "loan-1" (world_with_log "5")
  = (Throw TypeError, world_with_log "5").
Proof.
  apply (getAuditLogsForLoan_throws (world_with_log "5") (JNum (ofZ 5)));
    [vm_compute; reflexivity|discriminate].
Defined.

Example getAuditLogsForLoan_null_element :
  getAuditLogsForLoan "loan-1" (world_with_log "[null]")
  = (Throw TypeError, world_with_log "[null]").
Proof. reflexivity. Qed.

(** X9: reading writes nothing: [getAuditLogs] and [getAuditLogsForLoan]
    leave the world as it was, whether they return or throw. *)
Theorem reading_writes_nothing (w : World) (x : string) :
  (getAuditLogs w).2 = w /\ (getAuditLogsForLoan x w).2 = w.
Proof.
  split; [by rewrite getAuditLogs_reads|].
  unfold getAuditLogsForLoan. erewrite bind_Ok by apply getAuditLogs_reads.
  unfold Array_filter.
  destruct (stored_logs (localStorage w)) as [| | | |vs|]; try done.
  by destruct (filter_elements _ vs).
Qed.

(** X10: on a log of audit entries, after [createAuditLogEntry] the
    entries of a loan are those it had before, in their order, followed by
    the new entry if the input names that loan; the entries of every other
    loan are as before. *)
Theorem getAuditLogsForLoan_after_append
    (env : Env) (input : CreateAuditLogInput) (w : World)
    (entries : list AuditLogEntry) (x : string) :
  getAuditLogs w = (Ok (JArr (entry_value <$> entries)), w) ->
  exists (e : AuditLogEntry) (w' : World),
    createAuditLogEntry env input w = (Ok e, w')
    /\ copies_input e input
    /\ getAuditLogsForLoan x w'
       = (Ok (JArr (entry_value
                      <$> (filter (fun e => loanId e = x) entries
                           ++ if decide (input_loanId input = x)
                              then [e] else [])%list)), w').
Proof.
  intros Hlogs%logs_array.
  set (e := new_entry env (time w) input).
  exists e, (with_entry (entry_value <$> entries) e w).
  split; [by apply createAuditLogEntry_with_entry|].
  split; [apply new_entry_copies|].
  unfold getAuditLogsForLoan.
  erewrite bind_Ok by apply getAuditLogs_after_entry.
  unfold Array_filter.
  change [entry_value e] with (entry_value <$> [e]).
  rewrite <- fmap_app, AuditLogSpec.filter_elements_entries, filter_app.
  rewrite (filter_cons _ e []), filter_nil. done.
Qed.

(** A request for loan-2 is recorded: loan-2 has one entry more, at the
    end. *)
Lemma getAuditLogsForLoan_after_append_witness :
  exists (e : AuditLogEntry) (w' : World),
    createAuditLogEntry demo_env sample_input world_with_entries = (Ok e, w')
    /\ copies_input e sample_input
    /\ getAuditLogsForLoan "loan-2" w'
       = (Ok (JArr (entry_value
                      <$> (filter (fun e => loanId e = "loan-2")
                             sample_entries
                           ++ if decide (input_loanId sample_input = "loan-2")
                              then [e] else [])%list)), w').
Proof.
  apply (getAuditLogsForLoan_after_append demo_env sample_input
           world_with_entries sample_entries "loan-2").
  vm_compute. reflexivity.
Defined.

End AuditLogProps.

(* ===================================================================== *)
(** * The audit log table *)
(* ===================================================================== *)

Module AuditLogComponentProps.
Import JSON Runtime AuditLogService Browser AuditLogComponent.
Import Views Callers JSONFacts StoreFacts Samples.

Local Open Scope string_scope.

(** X11: on a log of audit entries, [refreshLogs] gives the table the
    entries most recent first and leaves the stored log in its own order;
    after [createAuditLogEntry] the new entry is the first row and the
    rows that were there follow it as before. *)
Theorem refreshLogs_most_recent_first
    (env : Env) (input : CreateAuditLogInput) (w : World)
    (entries : list AuditLogEntry) :
  getAuditLogs w = (Ok (JArr (entry_value <$> entries)), w) ->
  refreshLogs w = (Ok (JArr (entry_value <$> reverse entries)), w)
  /\ exists (e : AuditLogEntry) (w' : World),
       createAuditLogEntry env input w = (Ok e, w')
       /\ refreshLogs w'
          = (Ok (JArr (entry_value <$> e :: reverse entries)), w')
       /\ getAuditLogs w' = (Ok (JArr (entry_value <$> (entries ++ [e])%list)), w').
Proof.
  intros Hlogs. split.
  - unfold refreshLogs. erewrite bind_Ok by exact Hlogs.
    cbn [Array_reverse]. by rewrite fmap_reverse.
  - apply AuditLogProps.logs_array in Hlogs.
    eexists _, _.
    split; [by apply AuditLogProps.createAuditLogEntry_with_entry|].
    split; [|rewrite fmap_app; apply AuditLogProps.getAuditLogs_after_entry].
    unfold refreshLogs.
    erewrite bind_Ok by apply AuditLogProps.getAuditLogs_after_entry.
    cbn [Array_reverse]. by rewrite reverse_snoc, fmap_cons, fmap_reverse.
Qed.

(** The three entries of the tests are shown third, second, first, and a
    fourth one comes on top. *)
Lemma refreshLogs_most_recent_first_witness :
  refreshLogs world_with_entries
  = (Ok (JArr (entry_value <$> reverse sample_entries)), world_with_entries)
  /\ exists (e : AuditLogEntry) (w' : World),
       createAuditLogEntry demo_env sample_input world_with_entries
       = (Ok e, w')
       /\ refreshLogs w'
          = (Ok (JArr (entry_value <$> e :: reverse sample_entries)), w')
       /\ getAuditLogs w'
          = (Ok (JArr (entry_value <$> (sample_entries ++ [e])%list)), w').
Proof.
  apply (refreshLogs_most_recent_first demo_env sample_input
           world_with_entries sample_entries).
  vm_compute. reflexivity.
Defined.

(** X12: when the stored text parses to a value that is no array,
    [getAuditLogs] hands it on and [refreshLogs] throws a [TypeError]:
    the value has no [reverse]. *)
Theorem refreshLogs_needs_array (w : World) (v : JSValue) :
  getAuditLogs w = (Ok v, w) ->
  (forall vs, v <> JArr vs) ->
  refreshLogs w = (Throw TypeError, w).
Proof.
  intros Hlogs Hno. unfold refreshLogs. erewrite bind_Ok by exact Hlogs.
  destruct v as [| | | |vs|]; try done. by destruct (Hno vs).
Qed.

(** The stored text 5 reads as the number 5. *)
Lemma refreshLogs_needs_array_witness :
  refreshLogs (world_with_log "5") = (Throw TypeError, world_with_log "5").
Proof.
  apply (refreshLogs_needs_array (world_with_log "5") (JNum (ofZ 5)));
    [vm_compute; reflexivity|discriminate].
Defined.

(** X13: the badge tells the three actions apart: their labels differ
    from one another and from the action names, their classes differ from
    one another and are not empty; any other text is its own label and
    has no class. *)
Theorem action_badges :
  (forall a b : AuditAction,
     getActionLabel (action_text a) = getActionLabel (action_text b)
     \/ getActionClass (action_text a) = getActionClass (action_text b) ->
     a = b)
  /\ (forall a : AuditAction,
        getActionLabel (action_text a) <> action_text a
        /\ getActionClass (action_text a) <> EmptyString)
  /\ (forall text : string,
        (forall a : AuditAction, text <> action_text a) ->
        getActionLabel text = text /\ getActionClass text = EmptyString).
Proof.
  split; [|split].
  - intros [] [] [H|H]; first [reflexivity|discriminate H].
  - by intros [].
  - intros text Hother. unfold getActionLabel, getActionClass.
    destruct (String.eqb_spec text "loan_created") as [->|_];
      [by destruct (Hother loan_created)|].
    destruct (String.eqb_spec text "status_changed") as [->|_];
      [by destruct (Hother status_changed)|].
    destruct (String.eqb_spec text "auto_decided") as [->|_];
      [by destruct (Hother auto_decided)|].
    done.
Qed.

End AuditLogComponentProps.

(* ===================================================================== *)
(** * The test helpers that touch the browser *)
(* ===================================================================== *)

Module TestHelpersBrowserProps.
Import JSON Runtime AuditLogService Browser TestHelpersBrowser.
Import Views Callers JSONFacts StoreFacts Samples.

Local Open Scope string_scope.

(** X14: on the audit-log key, [getLocalStorage] and [getAuditLogs] agree
    on a text that is not empty and parses; on an absent or empty value
    the one returns [null] and the other the empty collection; on a text
    that does not parse the one throws a [SyntaxError] and the other
    recovers with the empty collection. *)
Theorem getLocalStorage_against_getAuditLogs (w : World) :
  (truthy (localStorage w !! STORAGE_KEY) = None ->
     getLocalStorage STORAGE_KEY w = (Ok JNull, w)
     /\ getAuditLogs w = (Ok (JArr []), w))
  /\ (forall text v,
        truthy (localStorage w !! STORAGE_KEY) = Some text ->
        JSON_parse text = Some v ->
        getLocalStorage STORAGE_KEY w = (Ok v, w)
        /\ getAuditLogs w = (Ok v, w))
  /\ (forall text,
        truthy (localStorage w !! STORAGE_KEY) = Some text ->
        JSON_parse text = None ->
        getLocalStorage STORAGE_KEY w = (Throw SyntaxError, w)
        /\ getAuditLogs w = (Ok (JArr []), w)).
Proof.
  rewrite getAuditLogs_reads.
  unfold getLocalStorage, stored_logs, bind, getItem, JSON_parse_call,
    ret, throw.
  split; [|split].
  - by intros ->.
  - intros text v -> ->. done.
  - intros text -> ->. done.
Qed.

Example getLocalStorage_unparseable :
  getLocalStorage STORAGE_KEY (world_with_log "invalid json")
  = (Throw SyntaxError, world_with_log "invalid json").
Proof. reflexivity. Qed.

(** X15: after [clearLocalStorage] every key reads as [null] through
    [getLocalStorage], the audit log reads as the empty collection and no
    loan has entries, whatever was stored. *)
Theorem clearLocalStorage_empties (w : World) (key x : string) :
  (clearLocalStorage w).1 = Ok tt
  /\ getLocalStorage key (clearLocalStorage w).2
     = (Ok JNull, (clearLocalStorage w).2)
  /\ getAuditLogs (clearLocalStorage w).2
     = (Ok (JArr []), (clearLocalStorage w).2)
  /\ getAuditLogsForLoan x (clearLocalStorage w).2
     = (Ok (JArr []), (clearLocalStorage w).2).
Proof. done. Qed.

(** ** Generated names *)

Lemma append_inv_head (a b c : string) : a ++ b = a ++ c -> b = c.
Proof.
  induction a as [|x a IH]; [done|].
  intros H. apply IH. by injection H.
Qed.

Lemma Number_toString_inj n1 n2 :
  Number_toString n1 = Number_toString n2 -> n1 = n2.
Proof.
  unfold Number_toString. intros H.
  apply DecimalN.Unsigned.to_uint_inj.
  assert (parse_uint (print_uint (N.to_uint n1) EmptyString)
          = parse_uint (print_uint (N.to_uint n2) EmptyString)) as Hp
    by (by rewrite H).
  rewrite !parse_uint_print_uint in Hp by done. by injection Hp.
Qed.

Lemma nonblank_Number_toString n : nonblank (Number_toString n) = true.
Proof.
  unfold Number_toString.
  pose proof (valid_int_nonempty _ (valid_int_to_uint n)) as Hn.
  by destruct (N.to_uint n).
Qed.

Lemma nonblank_append_r a b : nonblank b = true -> nonblank (a ++ b) = true.
Proof.
  intros Hb. induction a as [|x a IH]; [done|].
  change (visible x || nonblank (a ++ b) = true).
  rewrite IH. apply orb_true_r.
Qed.

(** No byte of a white space is a visible character. *)
Lemma visible_is_space c : is_space c = true -> visible c = false.
Proof. unfold visible. intros ->. apply andb_false_r. Qed.

Lemma visible_is_space2 c1 c2 :
  is_space2 c1 c2 = true -> visible c1 = false /\ visible c2 = false.
Proof.
  unfold is_space2, visible.
  intros [H1%N.eqb_eq H2%N.eqb_eq]%andb_prop. by rewrite H1, H2.
Qed.

Lemma visible_is_space3 c1 c2 c3 :
  is_space3 c1 c2 c3 = true ->
  visible c1 = false /\ visible c2 = false /\ visible c3 = false.
Proof.
  unfold is_space3, visible. intros H.
  assert ((128 <=? N_of_ascii c1)%N = true
          /\ (128 <=? N_of_ascii c2)%N = true
          /\ (128 <=? N_of_ascii c3)%N = true) as (H1 & H2 & H3).
  { repeat match goal with
           | H : (_ || _) = true |- _ => apply orb_prop in H as [H|H]
           | H : (_ && _) = true |- _ => apply andb_prop in H as [? H]
           | H : (_ =? _)%N = true |- _ => apply N.eqb_eq in H
           | H : (_ <=? _)%N = true |- _ => apply N.leb_le in H
           end;
      repeat split; apply N.leb_le; lia. }
  apply N.leb_le in H1, H2, H3.
  repeat split; apply andb_false_iff; left; apply N.ltb_ge; lia.
Qed.

(** Trimming the start keeps a visible character. *)
Lemma trim_start_nonblank s :
  nonblank s = true -> nonblank (trim_start s) = true.
Proof.
  remember (String.length s) as n eqn:Hn.
  revert s Hn. induction (lt_wf n) as [n _ IH]. intros s -> Hs.
  destruct s as [|c1 s1]; [done|]. cbn [trim_start].
  destruct (is_space c1) eqn:E1.
  { apply (IH (String.length s1)); [cbn; lia|done|].
    cbn [nonblank] in Hs. by rewrite (visible_is_space _ E1) in Hs. }
  destruct s1 as [|c2 s2]; [done|].
  destruct (is_space2 c1 c2) eqn:E2.
  { apply (IH (String.length s2)); [cbn; lia|done|].
    destruct (visible_is_space2 _ _ E2) as [H1 H2].
    cbn [nonblank] in Hs. by rewrite H1, H2 in Hs. }
  destruct s2 as [|c3 s3]; [done|].
  destruct (is_space3 c1 c2 c3) eqn:E3; [|done].
  apply (IH (String.length s3)); [cbn; lia|done|].
  destruct (visible_is_space3 _ _ _ E3) as (H1 & H2 & H3).
  cbn [nonblank] in Hs. by rewrite H1, H2, H3 in Hs.
Qed.

(** A string that holds a visible character is not trimmed to the empty
    string. *)
Lemma trim_nonblank s : nonblank s = true -> trim s <> EmptyString.
Proof.
  intros Hs%trim_start_nonblank. unfold trim.
  pose proof (trim_start_nonblank _ Hs) as Hagain.
  destruct (trim_start s) as [|c t]; [done|].
  cbn [trim_end]. by destruct (trim_start (String c t)).
Qed.

(** X16: [generateApplicantName] returns a name that is not blank, and
    two names made with the same prefix are equal exactly when the clock
    read the same millisecond: the names are unique only from one
    millisecond to the next. *)
Theorem generateApplicantName_by_millisecond
    (env : Env) (prefix : option string) (w1 w2 : World) :
  (exists name,
     generateApplicantName env prefix w1
     = (Ok name, {| localStorage := localStorage w1; time := S (time w1) |})
     /\ trim name <> EmptyString)
  /\ ((generateApplicantName env prefix w1).1
      = (generateApplicantName env prefix w2).1
      <-> Date_now env (time w1) = Date_now env (time w2)).
Proof.
  split.
  - eexists. split; [reflexivity|].
    apply trim_nonblank, nonblank_append_r, (nonblank_append_r " "),
      nonblank_Number_toString.
  - cbn. split.
    + intros [= H]. by apply append_inv_head, (append_inv_head " "),
        Number_toString_inj in H.
    + by intros ->.
Qed.

End TestHelpersBrowserProps.

(* ===================================================================== *)
(** * More of the decision rule and of the payment *)
(* ===================================================================== *)

Module PaymentProps.
Import Double TestHelpers.

Local Open Scope Q_scope.

(** X17: the decision rule is downward closed: when an amount and a term
    are approved, so is every amount and term that is not larger. *)
Theorem shouldAutoApprove_downward (amount termMonths amount' termMonths' : Q) :
  amount' <= amount -> termMonths' <= termMonths ->
  shouldAutoApprove amount termMonths = true ->
  shouldAutoApprove amount' termMonths' = true.
Proof.
  intros Ha Ht. rewrite !TestHelpersSpec.shouldAutoApprove_true.
  intros [H1 H2]. split; lra.
Qed.

Lemma shouldAutoApprove_downward_witness :
  shouldAutoApprove 50000 48 = true.
Proof.
  apply (shouldAutoApprove_downward 100000 60 50000 48);
    [discriminate|discriminate|reflexivity].
Defined.

(** X22: [calculateMonthlyPayment] refuses no input, whatever the engine
    answers for the power: a NaN amount or a NaN rate gives NaN, and a
    term of 0 months at rate zero gives [Infinity] for an amount above
    zero and NaN for the amount 0. *)
Theorem calculateMonthlyPayment_refuses_nothing
    (Math_pow : double -> Z -> double)
    (amount : double) (termMonths : Z) (interestRate : double) :
  calculateMonthlyPayment Math_pow S754_nan termMonths interestRate
  = S754_nan
  /\ calculateMonthlyPayment Math_pow amount termMonths S754_nan = S754_nan
  /\ calculateMonthlyPayment Math_pow zero 0 zero = S754_nan
  /\ (less_than zero amount = true ->
      calculateMonthlyPayment Math_pow amount 0 zero = S754_infinity false).
Proof.
  unfold calculateMonthlyPayment. split; [|split; [|split]].
  - by destruct (strict_equal interestRate zero).
  - by destruct amount.
  - done.
  - by destruct amount as [[]|[]| |[] m e].
Qed.

End PaymentProps.
